(** * A model of the ElementInternals polyfill (src/element-internals.ts)

    The class [ElementInternals] keeps all of its per-instance data in
    module-level weak maps ([refMap], [validityMap], ...) and acts on the DOM
    of its host element.  The model below threads one [World] value through
    every method: the weak maps become finite maps keyed by object identity,
    the part of the DOM the methods read or write is a finite map from
    elements to their attributes and properties, and what a method does to
    the outside (events, focus, observers, collaborator calls) is appended to
    a trace.  A method is a function from a world to an outcome and a new
    world; a JavaScript [throw] is an outcome [Throw e] that keeps every
    mutation made before it. *)

From stdpp Require Import base option list strings gmap fin_maps.

Local Open Scope string_scope.
Local Open Scope list_scope.

(** ** Object identities *)

(** DOM elements, [ElementInternals] instances, shadow roots: JavaScript
    objects compared by identity. *)
Definition Element := positive.
Definition Internals := positive.
Definition ShadowRoot := positive.

(** ** Errors *)

(** The error values the file constructs: [new TypeError(m)],
    [new Error(m)] and [new DOMException(m)].  A [DOMException] carries a
    [name]; the one-argument constructor used in the source leaves it at
    ["Error"]. *)
Inductive JsError : Type :=
  | TypeError (message : string)
  | Error (message : string)
  | DOMException (name message : string).

Definition is_TypeError (e : JsError) : bool :=
  match e with TypeError _ => true | _ => false end.

Definition is_NotSupportedError (e : JsError) : bool :=
  match e with
  | DOMException n _ => bool_decide (n = "NotSupportedError")
  | _ => false
  end.

Definition is_SyntaxError (e : JsError) : bool :=
  match e with
  | DOMException n _ => bool_decide (n = "SyntaxError")
  | _ => false
  end.

(** ** Outcomes *)

Inductive Outcome (A : Type) : Type :=
  | Return (a : A)
  | Throw (e : JsError).
Arguments Return {A} a.
Arguments Throw {A} e.

Definition throws {A} (o : Outcome A) : bool :=
  match o with Throw _ => true | Return _ => false end.

(** ** Values passed across the interface *)

(** A [ValidityState], and the partial one given to [setValidity], as the
    source treats them: objects enumerated by key ([for ... in], spread,
    [Object.keys]) whose properties are booleans.  The key ["valid"] holds
    the derived flag, every other key a named flag. *)
Abbreviation ValidityState := (gmap string bool).

(** An entry value of a [FormData]: a string or a file. *)
Inductive FormDataEntryValue : Type :=
  | EntryString (s : string)
  | EntryFile (file : positive).

(** The argument of [setFormValue]: [string | FormData | null]; a
    [FormData] is the ordered list of its entries, as [forEach] visits it. *)
Inductive FormValue : Type :=
  | VNull
  | VString (s : string)
  | VFormData (entries : list (string * FormDataEntryValue)).

(** A hidden proxy [<input>]: the two properties the source assigns. *)
Record HiddenInput : Type := mkHiddenInput {
  input_name : string;
  input_value : string
}.

(** The init dictionary of [new Event(type, init)]. *)
Record Event : Type := mkEvent {
  event_type : string;
  bubbles : bool;
  cancelable : bool;
  composed : bool
}.

Inductive ShadowRootMode : Type := Open | Closed.

(** A root node, seen through [querySelectorAll]: what it answers to a
    selector text, the elements the selector picks, or nothing when the
    text is not a selector and the call throws a [SyntaxError]. *)
Abbreviation Root := (string → option (list Element)).

(** A host element: what the source reads from [ref].
    [formAssociated] is the truthiness of the static
    [ref.constructor['formAssociated']]; [parentForm] and [hostRoot] are
    what the collaborators [findParentForm(ref)] and [getHostRoot(ref)]
    find in the document; [cancelled_events] lists the event types that a
    listener on the element cancels with [preventDefault()]. *)
Record HostElement : Type := mkHost {
  tagName : string;
  formAssociated : bool;
  attributes : gmap string string;
  disabled : bool;
  parentForm : option Element;
  hostRoot : option Root;
  cancelled_events : list string
}.

(** What a method does to the outside world, in order. *)
Inductive Effect : Type :=
  | InitAom (ref : Element) (internals : Internals)
  | InitRef (ref : Element) (internals : Internals)
  | InitLabels (ref : Element) (labels : list Element)
  | InitForm (ref : Element) (form : option Element) (internals : Internals)
  | DispatchEvent (target : Element) (ev : Event)
  | Focus (target : Element)
  | NativeAttachShadow (host : Element) (mode : ShadowRootMode) (root : ShadowRoot)
  | Observe (observer : positive) (target : ShadowRoot).

(** ** The world *)

(** The maps of [./maps] under their own names.  [maps.ts] is not part of
    the sources at hand; the methods use the maps through [get] and [set]
    only and re-[set] the same key on every call ([validationAnchorMap],
    [validationMessageMap], [refValueMap]), so they are modelled as plain
    key-value maps whose [set] overwrites.  [hiddenInputMap] is the list of
    proxy inputs that [createHiddenInput] and [removeHiddenInputs] keep for
    an instance.  [nextObject] is the next unused object identity. *)
Record World : Type := mkWorld {
  dom : gmap Element HostElement;
  refMap : gmap Internals Element;
  validityMap : gmap Internals ValidityState;
  internalsMap : gmap Element Internals;
  validationAnchorMap : gmap Internals (option Element);
  validationMessageMap : gmap Internals (option string);
  refValueMap : gmap Element FormValue;
  shadowRootMap : gmap Element ShadowRoot;
  shadowHostsMap : gmap Element positive;
  hiddenInputMap : gmap Internals (list HiddenInput);
  trace : list Effect;
  nextObject : positive
}.

Definition set_dom (f : gmap Element HostElement → gmap Element HostElement) (w : World) : World :=
  mkWorld (f (dom w)) (refMap w) (validityMap w) (internalsMap w)
    (validationAnchorMap w) (validationMessageMap w) (refValueMap w)
    (shadowRootMap w) (shadowHostsMap w) (hiddenInputMap w) (trace w) (nextObject w).

Definition set_refMap (f : gmap Internals Element → gmap Internals Element) (w : World) : World :=
  mkWorld (dom w) (f (refMap w)) (validityMap w) (internalsMap w)
    (validationAnchorMap w) (validationMessageMap w) (refValueMap w)
    (shadowRootMap w) (shadowHostsMap w) (hiddenInputMap w) (trace w) (nextObject w).

Definition set_validityMap (f : gmap Internals ValidityState → gmap Internals ValidityState) (w : World) : World :=
  mkWorld (dom w) (refMap w) (f (validityMap w)) (internalsMap w)
    (validationAnchorMap w) (validationMessageMap w) (refValueMap w)
    (shadowRootMap w) (shadowHostsMap w) (hiddenInputMap w) (trace w) (nextObject w).

Definition set_internalsMap (f : gmap Element Internals → gmap Element Internals) (w : World) : World :=
  mkWorld (dom w) (refMap w) (validityMap w) (f (internalsMap w))
    (validationAnchorMap w) (validationMessageMap w) (refValueMap w)
    (shadowRootMap w) (shadowHostsMap w) (hiddenInputMap w) (trace w) (nextObject w).

Definition set_validationAnchorMap
    (f : gmap Internals (option Element) → gmap Internals (option Element)) (w : World) : World :=
  mkWorld (dom w) (refMap w) (validityMap w) (internalsMap w)
    (f (validationAnchorMap w)) (validationMessageMap w) (refValueMap w)
    (shadowRootMap w) (shadowHostsMap w) (hiddenInputMap w) (trace w) (nextObject w).

Definition set_validationMessageMap
    (f : gmap Internals (option string) → gmap Internals (option string)) (w : World) : World :=
  mkWorld (dom w) (refMap w) (validityMap w) (internalsMap w)
    (validationAnchorMap w) (f (validationMessageMap w)) (refValueMap w)
    (shadowRootMap w) (shadowHostsMap w) (hiddenInputMap w) (trace w) (nextObject w).

Definition set_refValueMap (f : gmap Element FormValue → gmap Element FormValue) (w : World) : World :=
  mkWorld (dom w) (refMap w) (validityMap w) (internalsMap w)
    (validationAnchorMap w) (validationMessageMap w) (f (refValueMap w))
    (shadowRootMap w) (shadowHostsMap w) (hiddenInputMap w) (trace w) (nextObject w).

Definition set_shadowRootMap (f : gmap Element ShadowRoot → gmap Element ShadowRoot) (w : World) : World :=
  mkWorld (dom w) (refMap w) (validityMap w) (internalsMap w)
    (validationAnchorMap w) (validationMessageMap w) (refValueMap w)
    (f (shadowRootMap w)) (shadowHostsMap w) (hiddenInputMap w) (trace w) (nextObject w).

Definition set_shadowHostsMap (f : gmap Element positive → gmap Element positive) (w : World) : World :=
  mkWorld (dom w) (refMap w) (validityMap w) (internalsMap w)
    (validationAnchorMap w) (validationMessageMap w) (refValueMap w)
    (shadowRootMap w) (f (shadowHostsMap w)) (hiddenInputMap w) (trace w) (nextObject w).

Definition set_hiddenInputMap
    (f : gmap Internals (list HiddenInput) → gmap Internals (list HiddenInput)) (w : World) : World :=
  mkWorld (dom w) (refMap w) (validityMap w) (internalsMap w)
    (validationAnchorMap w) (validationMessageMap w) (refValueMap w)
    (shadowRootMap w) (shadowHostsMap w) (f (hiddenInputMap w)) (trace w) (nextObject w).

Definition set_trace (f : list Effect → list Effect) (w : World) : World :=
  mkWorld (dom w) (refMap w) (validityMap w) (internalsMap w)
    (validationAnchorMap w) (validationMessageMap w) (refValueMap w)
    (shadowRootMap w) (shadowHostsMap w) (hiddenInputMap w) (f (trace w)) (nextObject w).

Definition set_nextObject (f : positive → positive) (w : World) : World :=
  mkWorld (dom w) (refMap w) (validityMap w) (internalsMap w)
    (validationAnchorMap w) (validationMessageMap w) (refValueMap w)
    (shadowRootMap w) (shadowHostsMap w) (hiddenInputMap w) (trace w) (f (nextObject w)).

(** ** Methods as world transformers *)

Definition M (A : Type) : Type := World → Outcome A * World.

Definition ret {A} (a : A) : M A := λ w, (Return a, w).

Definition throw {A} (e : JsError) : M A := λ w, (Throw e, w).

Definition bind {A B} (m : M A) (k : A → M B) : M B :=
  λ w, match m w with
       | (Return a, w') => k a w'
       | (Throw e, w') => (Throw e, w')
       end.

Definition gets {A} (f : World → A) : M A := λ w, (Return (f w), w).

Definition modify (f : World → World) : M unit := λ w, (Return tt, f w).

Notation "'let*' x ':=' m 'in' k" := (bind m (λ x, k))
  (at level 10, x name, m at level 100, k at level 200).
Notation "m ';;' k" := (bind m (λ _, k))
  (at level 100, k at level 200, right associativity).

(** A new object: the next unused identity. *)
Definition fresh : M positive :=
  λ w, (Return (nextObject w), set_nextObject Pos.succ w).

Definition emit (e : Effect) : M unit := modify (set_trace (λ t, t ++ [e])).

(** Property access on a reference that may be [undefined]: reading a
    property of [undefined] is a [TypeError]. *)
Definition the_host (ref : option Element) : M HostElement :=
  λ w, match ref ≫= (dom w !!.) with
       | Some h => (Return h, w)
       | None => (Throw (TypeError "Cannot read properties of undefined"), w)
       end.

(** JavaScript truthiness of an optional string: [undefined], [null] and
    the empty string are falsy. *)
Definition truthy (s : option string) : bool :=
  match s with
  | Some s => negb (bool_decide (s = ""))
  | None => false
  end.

(** [s.indexOf('-') === -1] *)
Definition no_hyphen (s : string) : bool :=
  bool_decide (String.index 0 "-" s = None).

(** ** DOM primitives *)

(** [ref.getAttribute(name)]: the value, or [null]. *)
Definition getAttribute (ref : option Element) (name : string) : M (option string) :=
  let* h := the_host ref in ret (attributes h !! name).

(** [ref.hasAttribute(name)] *)
Definition hasAttribute (ref : option Element) (name : string) : M bool :=
  let* h := the_host ref in ret (bool_decide (is_Some (attributes h !! name))).

Definition with_attribute (name value : string) (h : HostElement) : HostElement :=
  mkHost (tagName h) (formAssociated h) (<[name := value]> (attributes h))
    (disabled h) (parentForm h) (hostRoot h) (cancelled_events h).

(** [ref.setAttribute(name, value)] *)
Definition setAttribute (ref : option Element) (name value : string) : M unit :=
  let* _ := the_host ref in
  match ref with
  | Some r => modify (set_dom (alter (with_attribute name value) r))
  | None => ret tt
  end.

(** [ref.dispatchEvent(ev)]: the listeners run before the call returns; the
    result is [false] exactly when the event is cancelable and a listener
    cancelled it.  Listeners are taken not to call back into the instance
    (no other call interleaves with a method, spec section 5). *)
Definition dispatchEvent (ref : option Element) (ev : Event) : M bool :=
  let* h := the_host ref in
  match ref with
  | Some r =>
      emit (DispatchEvent r ev) ;;
      ret (negb (cancelable ev && bool_decide (event_type ev ∈ cancelled_events h)))
  | None => ret true
  end.

(** [target.focus()] *)
Definition focus (target : option Element) : M unit :=
  match target with
  | Some e => emit (Focus e)
  | None => throw (TypeError "Cannot read properties of undefined")
  end.

(** ** Collaborators from [./ValidityState] *)

(** Modelled from the spec: the named flags of the class [ValidityState],
    which lives in [./ValidityState], outside the sources at hand
    (spec section 3: valueMissing, typeMismatch, patternMismatch, tooLong,
    tooShort, rangeUnderflow, rangeOverflow, stepMismatch, badInput,
    customError). *)
Definition named_flags : list string :=
  ["valueMissing"; "typeMismatch"; "patternMismatch"; "tooLong"; "tooShort";
   "rangeUnderflow"; "rangeOverflow"; "stepMismatch"; "badInput"; "customError"].

(** Modelled from the spec: [new ValidityState()] of [./ValidityState]:
    "created empty (all flags false, valid = true)". *)
Definition new_ValidityState : ValidityState :=
  <["valid" := true]> (list_to_map ((λ k, (k, false)) <$> named_flags)).

(** Modelled from the spec: the derived flag, "valid = NOR(all other
    flags)": true exactly when no key other than ["valid"] holds [true]. *)
Definition isValid (flags : ValidityState) : bool :=
  bool_decide (map_Forall (λ k v, k ≠ "valid" → v = false) flags).

(** Modelled from the spec: what [setValid] of [./ValidityState] leaves in
    the object: "force fully valid: reset all flags to false". *)
Definition all_clear (flags : ValidityState) : ValidityState :=
  <["valid" := true]> ((λ _, false) <$> flags).

(** Modelled from the spec: what [reconcileValidty] of [./ValidityState]
    leaves in the object: the new state overlaid on the current flags
    ("keys not present are left unchanged"), and [valid] recomputed as the
    NOR of the named flags "over the merged result". *)
Definition reconciled (current newState : ValidityState) : ValidityState :=
  let merged := newState ∪ current in
  <["valid" := isValid merged]> merged.

(** [{...validity}]: the own properties of the object; spreading
    [undefined] gives no property.

    The instance's [ValidityState] is one object, made by the constructor
    and never replaced: the source calls [validityMap.set] there and nowhere
    else.  The reference [validityMap.get(this)] is therefore modelled by
    the key [this], and a mutation of the object by an update of the
    entry. *)
Definition spread (validity : Internals) : M ValidityState :=
  gets (λ w, default ∅ (validityMap w !! validity)).

(** [validity.valid] *)
Definition read_valid (validity : Internals) : M bool :=
  λ w, match validityMap w !! validity with
       | Some v => (Return (default false (v !! "valid")), w)
       | None => (Throw (TypeError "Cannot read properties of undefined"), w)
       end.

(** Modelled from the spec: [setValid(validity)] of [./ValidityState].  The
    source discards its result (line 186), so its effect is on the object
    it is given. *)
Definition setValid (validity : Internals) : M unit :=
  λ w, match validityMap w !! validity with
       | Some v => (Return tt, set_validityMap <[validity := all_clear v]> w)
       | None => (Throw (TypeError "Cannot set properties of undefined"), w)
       end.

(** Modelled from the spec: [reconcileValidty(validity, newState)] of
    [./ValidityState]: "merging a partial validity update into current
    state and recomputing derived overall validity"; the [ValidityState] is
    "mutated only through the reconciliation operation".  The source reads
    [valid] off the result (line 190) and never stores a [ValidityState]
    after the call, so the merge is a mutation of the object passed in, and
    the result is that object. *)
Definition reconcileValidty (validity : Internals) (newState : ValidityState) : M ValidityState :=
  λ w, match validityMap w !! validity with
       | Some v =>
           let v' := reconciled v newState in
           (Return v', set_validityMap <[validity := v']> w)
       | None => (Throw (TypeError "Cannot set properties of undefined"), w)
       end.

(** ** Collaborators from [./utils] and [./aom] *)

(** Modelled from the spec: [throwIfNotFormAssociated(ref, message)] of
    [./utils]: the gate of spec section 4.1, which fails "with a
    NotSupportedError-class error if the owning host element's type did not
    declare itself form-associable", and reads the declaration off the
    element on every call. *)
Definition throwIfNotFormAssociated (ref : option Element) (message : string) : M unit :=
  let* h := the_host ref in
  if formAssociated h then ret tt
  else throw (DOMException "NotSupportedError" message).

(** Modelled from the spec: [removeHiddenInputs(internals)] of [./utils]:
    "discards any proxy inputs created by a prior call (idempotent cleanup,
    safe to call when none exist)". *)
Definition removeHiddenInputs (this : Internals) : M unit :=
  modify (set_hiddenInputMap <[this := []]>).

(** A proxy input the instance holds, by its position in the instance's
    list. *)
Definition InputRef : Type := Internals * nat.

(** Modelled from the spec: [createHiddenInput(ref, internals)] of
    [./utils]: a new hidden proxy input "using the host's declared name
    attribute as the proxy's name", added to the instance's proxy inputs
    and returned. *)
Definition createHiddenInput (ref : option Element) (this : Internals) : M InputRef :=
  let* name := getAttribute ref "name" in
  let* inputs := gets (λ w, default [] (hiddenInputMap w !! this)) in
  modify (set_hiddenInputMap
            <[this := inputs ++ [mkHiddenInput (default "" name) ""]]>) ;;
  ret (this, length inputs).

(** [hiddenInput.name = name] *)
Definition set_input_name (input : InputRef) (name : string) : M unit :=
  modify (set_hiddenInputMap
            (alter (alter (λ i, mkHiddenInput name (input_value i)) input.2) input.1)).

(** [hiddenInput.value = value] *)
Definition set_input_value (input : InputRef) (value : string) : M unit :=
  modify (set_hiddenInputMap
            (alter (alter (λ i, mkHiddenInput (input_name i) value) input.2) input.1)).

(** Modelled from the spec: [findParentForm(ref)] of [./utils], the
    "ancestor-form lookup by element": the form the document holds for the
    element. *)
Definition findParentForm (ref : option Element) : M (option Element) :=
  let* h := the_host ref in ret (parentForm h).

(** Modelled from the spec: [getHostRoot(ref)] of [./utils]: the root the
    element lives in, for the "label-list lookup by id". *)
Definition getHostRoot (ref : option Element) : M (option Root) :=
  let* h := the_host ref in ret (hostRoot h).

(** The template literal of line 123: the id goes into the selector as it
    is, without quotes. *)
Definition for_selector (id : string) : string := ("[for=" ++ id ++ "]")%string.

(** The [SyntaxError] of the DOM for a text that is not a selector. *)
Definition not_a_selector (selector : string) : JsError :=
  DOMException "SyntaxError"
    ("Failed to execute 'querySelectorAll': '" ++ selector ++ "' is not a valid selector.")%string.

(** [hostRoot.querySelectorAll(selector)] *)
Definition querySelectorAll (root : Root) (selector : string) : M (list Element) :=
  match root selector with
  | Some found => ret found
  | None => throw (not_a_selector selector)
  end.

(** Modelled from the spec: [initAom] of [./aom] and [initRef],
    [initLabels], [initForm] of [./utils], the collaborators the constructor
    calls (ARIA seeding, label wiring, form wiring; spec section 1 puts them
    out of scope).  Each is recorded as a call; none touches the maps. *)
Definition initAom (ref : Element) (this : Internals) : M unit :=
  emit (InitAom ref this).

Definition initRef (ref : Element) (this : Internals) : M unit :=
  emit (InitRef ref this).

Definition initLabels (ref : Element) (labels : list Element) : M unit :=
  emit (InitLabels ref labels).

Definition initForm (ref : Element) (form : option Element) (this : Internals) : M unit :=
  emit (InitForm ref form this).

(** ** The class [ElementInternals] *)

Definition refMap_get (this : Internals) : M (option Element) :=
  gets (λ w, refMap w !! this).

Definition not_form_associated (what : string) : string :=
  ("Failed to " ++ what ++
   " 'ElementInternals': The target element is not a form-associated custom element.")%string.

(** [get form()], lines 106-114 *)
Definition form (this : Internals) : M (option Element) :=
  let* ref := refMap_get this in
  throwIfNotFormAssociated ref (not_form_associated "read the 'form' property from") ;;
  let* h := the_host ref in
  if formAssociated h then findParentForm ref else ret None.

(** [get labels()], lines 117-126 *)
Definition labels (this : Internals) : M (list Element) :=
  let* ref := refMap_get this in
  throwIfNotFormAssociated ref (not_form_associated "read the 'labels' property from") ;;
  let* id := getAttribute ref "id" in
  let* hostRoot := getHostRoot ref in
  match hostRoot, id with
  | Some root, Some i =>
      if truthy id then querySelectorAll root (for_selector i) else ret []
  | _, _ => ret []
  end.

(** [checkValidity()], lines 90-103 *)
Definition checkValidity (this : Internals) : M bool :=
  let* ref := refMap_get this in
  throwIfNotFormAssociated ref (not_form_associated "execute 'checkValidity' on") ;;
  let validity : Internals := this in
  let* valid := read_valid validity in
  (if negb valid then
     let validityEvent := mkEvent "invalid" false true false in
     dispatchEvent ref validityEvent ;; ret tt
   else ret tt) ;;
  read_valid validity.

(** [reportValidity()], lines 129-142 *)
Definition reportValidity (this : Internals) : M bool :=
  let* ref := refMap_get this in
  throwIfNotFormAssociated ref (not_form_associated "execute 'reportValidity' on") ;;
  let* valid := checkValidity this in
  let* anchor := gets (λ w, mjoin (validationAnchorMap w !! this)) in
  let* h := the_host ref in
  (if bool_decide (is_Some anchor) && negb (formAssociated h) then
     throw (DOMException "Error" (not_form_associated "execute 'setValidity' on"))
   else ret tt) ;;
  (if negb valid && bool_decide (is_Some anchor) then
     focus ref ;; focus anchor
   else ret tt) ;;
  ret valid.

(** The callback of [value.forEach], lines 155-161, over the entries in
    order. *)
Fixpoint forEach_entry (ref : option Element) (this : Internals)
    (entries : list (string * FormDataEntryValue)) : M unit :=
  match entries with
  | [] => ret tt
  | (formDataKey, formDataValue) :: rest =>
      match formDataValue with
      | EntryString s =>
          let* hiddenInput := createHiddenInput ref this in
          set_input_name hiddenInput formDataKey ;;
          set_input_value hiddenInput s
      | EntryFile _ => ret tt
      end ;;
      forEach_entry ref this rest
  end.

(** [setFormValue(value)], lines 145-164 *)
Definition setFormValue (this : Internals) (value : FormValue) : M unit :=
  let* ref := refMap_get this in
  throwIfNotFormAssociated ref (not_form_associated "execute 'setFormValue' on") ;;
  removeHiddenInputs this ;;
  match value with
  | VString s =>
      let* name := getAttribute ref "name" in
      if truthy name then
        let* hiddenInput := createHiddenInput ref this in
        set_input_value hiddenInput s
      else ret tt
  | VFormData entries => forEach_entry ref this entries
  | VNull => ret tt
  end ;;
  match ref with
  | Some r => modify (set_refValueMap <[r := value]>)
  | None => ret tt
  end.

(** [setValidity(validityChanges, validationMessage, anchor)], lines
    173-197.  An omitted argument is [None]. *)
Definition setValidity (this : Internals) (validityChanges : option ValidityState)
    (validationMessage : option string) (anchor : option Element) : M unit :=
  let* ref := refMap_get this in
  throwIfNotFormAssociated ref (not_form_associated "execute 'setValidity' on") ;;
  match validityChanges with
  | None =>
      throw (TypeError
        "Failed to execute 'setValidity' on 'ElementInternals': 1 argument required, but only 0 present.")
  | Some validityChanges =>
      modify (set_validationAnchorMap <[this := anchor]>) ;;
      let validity : Internals := this in
      (* the [for ... in] loop copies every key *)
      let validityChangesObj : ValidityState := validityChanges in
      (if bool_decide (size validityChangesObj = 0) then setValid validity else ret tt) ;;
      let* current := spread validity in
      let check := delete "valid" (validityChangesObj ∪ current) in
      let* result := reconcileValidty validity check in
      let valid := default false (result !! "valid") in
      if negb valid && negb (truthy validationMessage) then
        throw (DOMException "Error"
          "Failed to execute 'setValidity' on 'ElementInternals': The second argument should not be empty if one or more flags in the first argument are true.")
      else
        modify (set_validationMessageMap
                  <[this := if valid then Some "" else validationMessage]>) ;;
        setAttribute ref "aria-invalid" (if negb valid then "true" else "false")
  end.

(** [get shadowRoot()], lines 199-206: no gate; a [WeakMap] looked up with
    [undefined] answers [undefined]. *)
Definition shadowRoot (this : Internals) : M (option ShadowRoot) :=
  let* ref := refMap_get this in
  let* shadowRoot := gets (λ w, ref ≫= (shadowRootMap w !!.)) in
  match shadowRoot with
  | Some _ => gets (λ w, ref ≫= (shadowRootMap w !!.))
  | None => ret None
  end.

(** [get validationMessage()], lines 209-213 *)
Definition validationMessage (this : Internals) : M (option string) :=
  let* ref := refMap_get this in
  throwIfNotFormAssociated ref
    (not_form_associated "read the 'validationMessage' property from") ;;
  gets (λ w, mjoin (validationMessageMap w !! this)).

(** [get validity()], lines 216-221: the object, given by its content. *)
Definition validity (this : Internals) : M (option ValidityState) :=
  let* ref := refMap_get this in
  throwIfNotFormAssociated ref (not_form_associated "read the 'validity' property from") ;;
  gets (λ w, validityMap w !! this).

(** [get willValidate()], lines 224-231 *)
Definition willValidate (this : Internals) : M bool :=
  let* ref := refMap_get this in
  throwIfNotFormAssociated ref
    (not_form_associated "read the 'willValidate' property from") ;;
  let* h := the_host ref in
  let* has := hasAttribute ref "disabled" in
  if disabled h || has then ret false else ret true.

(** [new ElementInternals(ref)], lines 68-85.  [new] makes the object
    before the body runs. *)
Definition new_ElementInternals (ref : option Element) : M Internals :=
  let* this := fresh in
  let* h := gets (λ w, ref ≫= (dom w !!.)) in
  match ref, h with
  | Some r, Some h =>
      if bool_decide (tagName h = "") || no_hyphen (tagName h) then
        throw (TypeError "Illegal constructor")
      else
        let validity := new_ValidityState in
        modify (set_refMap <[this := r]>) ;;
        modify (set_validityMap <[this := validity]>) ;;
        modify (set_internalsMap <[r := this]>) ;;
        initAom r this ;;
        initRef r this ;;
        (if formAssociated h then
           let* labels := labels this in
           let* form := form this in
           initLabels r labels ;;
           initForm r form this
         else ret tt) ;;
        ret this
  | _, _ => throw (TypeError "Illegal constructor")
  end.

(** ** The installation on [Element.prototype] *)

(** The native [attachShadow], as the wrapper needs it: it makes a shadow
    root for the host. *)
Definition attachShadow (host : Element) (mode : ShadowRootMode) : M ShadowRoot :=
  let* root := fresh in
  emit (NativeAttachShadow host mode root) ;;
  ret root.

(** [attachShadowObserver], lines 243-250 *)
Definition attachShadowObserver (this : Element) (mode : ShadowRootMode) : M ShadowRoot :=
  let* shadowRoot := attachShadow this mode in
  let* observer := fresh in
  modify (set_shadowRootMap <[this := shadowRoot]>) ;;
  emit (Observe observer shadowRoot) ;;
  modify (set_shadowHostsMap <[this := observer]>) ;;
  ret shadowRoot.

(** [attachInternals], lines 256-265 *)
Definition attachInternals (this : Element) : M Internals :=
  let* h := the_host (Some this) in
  if no_hyphen (tagName h) then
    throw (Error
      "Failed to execute 'attachInternals' on 'HTMLElement': Unable to attach ElementInternals to non-custom elements.")
  else new_ElementInternals (Some this).

(** ** Runs of [setValidity] *)

(** One call of [setValidity] with its three arguments. *)
Record SetValidityCall : Type := mkCall {
  call_flags : option ValidityState;
  call_message : option string;
  call_anchor : option Element
}.

(** A sequence of [setValidity] calls on one instance: the outcome of each
    call and the world it leaves, in order. *)
Fixpoint setValidity_calls (this : Internals) (calls : list SetValidityCall)
    (w : World) : list (Outcome unit * World) :=
  match calls with
  | [] => []
  | c :: rest =>
      let r := setValidity this (call_flags c) (call_message c) (call_anchor c) w in
      r :: setValidity_calls this rest r.2
  end.

(** ** What the claims speak of *)

(** [valid] is the NOR of the named flags: it is present, and true exactly
    when no other key of the object holds [true]. *)
Definition valid_is_nor (v : ValidityState) : Prop :=
  ∃ b, v !! "valid" = Some b ∧ (b = true ↔ ∀ k, k ≠ "valid" → v !! k ≠ Some true).

(** What [labels] answers on a form-associated host: the empty list
    without a root or without a non-empty id, and otherwise the root's
    answer to the [for] selector made of the id, a [SyntaxError] when the
    root does not take that text for a selector. *)
Definition labels_outcome (h : HostElement) : Outcome (list Element) :=
  match hostRoot h, attributes h !! "id" with
  | Some root, Some id =>
      if bool_decide (id = "") then Return []
      else match root (for_selector id) with
           | Some found => Return found
           | None => Throw (not_a_selector (for_selector id))
           end
  | _, _ => Return []
  end.

(** The labels of the host can be read: if it has a root and a non-empty
    id, the root takes the [for] selector made of the id. *)
Definition labels_readable (h : HostElement) : Prop :=
  ∀ root id,
    hostRoot h = Some root → attributes h !! "id" = Some id → id ≠ "" →
    is_Some (root (for_selector id)).

(** The method fails with the association error and changes nothing. *)
Definition fails_not_supported {A} (m : M A) (w : World) : Prop :=
  ∃ e, m w = (Throw e, w) ∧ is_NotSupportedError e = true.

(** The error of line 193. *)
Definition message_required : JsError :=
  DOMException "Error"
    "Failed to execute 'setValidity' on 'ElementInternals': The second argument should not be empty if one or more flags in the first argument are true.".

(** The event of lines 95-99. *)
Definition invalid_event : Event := mkEvent "invalid" false true false.

(** The proxy inputs a form value asks for, in the words of the spec
    (section 4.3): none for [null]; for a string, one input with the host's
    name and the string, if the host has a non-empty [name] attribute; for
    entries, one input per string-valued entry, named by the entry's key. *)
Definition proxies_for (h : HostElement) (value : FormValue) : list HiddenInput :=
  match value with
  | VNull => []
  | VString s =>
      match attributes h !! "name" with
      | Some n => if bool_decide (n = "") then [] else [mkHiddenInput n s]
      | None => []
      end
  | VFormData entries =>
      omap (λ e, match e.2 with
                 | EntryString s => Some (mkHiddenInput e.1 s)
                 | EntryFile _ => None
                 end) entries
  end.

(** The world after lines 72-78 of the constructor for the instance
    about to be made: the instance is registered for the host with a fresh
    [ValidityState], and [initAom] and [initRef] have been called. *)
Definition constructed (host : Element) (w : World) : World :=
  let this := nextObject w in
  set_trace (λ t, t ++ [InitRef host this])
    (set_trace (λ t, t ++ [InitAom host this])
       (set_internalsMap <[host := this]>
          (set_validityMap <[this := new_ValidityState]>
             (set_refMap <[this := host]> (set_nextObject Pos.succ w))))).

(** What the maps hold for one instance. *)
Definition instance_state (w : World) (this : Internals) :=
  (refMap w !! this, validityMap w !! this, validationMessageMap w !! this,
   validationAnchorMap w !! this, hiddenInputMap w !! this).

(** An attribute of an element, as [getAttribute] reads it. *)
Definition attribute_of (w : World) (e : Element) (name : string) : option string :=
  dom w !! e ≫= λ h, attributes h !! name.

(** The [aria-invalid] attribute of an element. *)
Definition aria_invalid (w : World) (ref : Element) : option string :=
  dom w !! ref ≫= λ h, attributes h !! "aria-invalid".

(** The class of an element stops declaring itself form-associated. *)
Definition undeclare (ref : Element) (w : World) : World :=
  set_dom (alter (λ h, mkHost (tagName h) false (attributes h) (disabled h)
                         (parentForm h) (hostRoot h) (cancelled_events h)) ref) w.

(** ** A document to run the methods in *)

Module Demo.

(** [<x-field name="n">] of a form-associated class, [<x-plain>] of a
    class that is not, and a [<div>]. *)
Definition field : Element := 1%positive.
Definition plain : Element := 2%positive.
Definition div : Element := 3%positive.

Definition document : World :=
  mkWorld
    (<[field := mkHost "X-FIELD" true {["name" := "n"]} false None None []]>
      (<[plain := mkHost "X-PLAIN" false ∅ false None None []]>
        {[div := mkHost "DIV" false ∅ false None None []]}))
    ∅ ∅ ∅ ∅ ∅ ∅ ∅ ∅ ∅ [] 10%positive.

(** [field.attachInternals()] and [plain.attachInternals()]: instances
    [10] and [11]. *)
Definition attached : World :=
  (attachInternals plain (attachInternals field document).2).2.

Definition internals : Internals := 10%positive.
Definition plain_internals : Internals := 11%positive.

(** [internals.setValidity({valueMissing: true}, "Required")] *)
Definition required : World :=
  (setValidity internals (Some {["valueMissing" := true]}) (Some "Required") None
     attached).2.

(** [internals.setValidity({valueMissing: true}, "Required", div)] *)
Definition anchored : World :=
  (setValidity internals (Some {["valueMissing" := true]}) (Some "Required") (Some div)
     attached).2.

(** A document with one root: [<label for="first">] (element 5) and a
    form-associated [<x-field id="first">], and a second form-associated
    [<x-field id="a.b">], whose id does not make a selector. *)
Definition labelled_root : Root :=
  λ selector,
    if bool_decide (selector = "[for=first]") then Some [5%positive]
    else if bool_decide (selector = "[for=a.b]") then None
    else Some [].

Definition first_field : Element := 1%positive.
Definition dotted_field : Element := 2%positive.

Definition labelled_document : World :=
  mkWorld
    (<[first_field := mkHost "X-FIELD" true {["id" := "first"]} false None
                        (Some labelled_root) []]>
      {[dotted_field := mkHost "X-FIELD" true {["id" := "a.b"]} false None
                          (Some labelled_root) []]})
    ∅ ∅ ∅ ∅ ∅ ∅ ∅ ∅ ∅ [] 10%positive.

End Demo.

(** ** The module body, lines 240-272 *)

(** Who provides [window.ElementInternals]. *)
Inductive Implementation : Type := Native | Polyfilled.

(** The globals the module body reads and writes: the class registered
    on [window], whether [Element.prototype.attachInternals] is the
    property defined at lines 256-265, how many times
    [Element.prototype.attachShadow] has been wrapped in
    [attachShadowObserver], and how many observers watch
    [document.documentElement]. *)
Record Globals : Type := mkGlobals {
  window_ElementInternals : option Implementation;
  attachInternals_defined : bool;
  attachShadow_wrappers : nat;
  document_observers : nat
}.

(** The statements under [if (!window.ElementInternals)]. *)
Definition install (g : Globals) : Globals :=
  match window_ElementInternals g with
  | Some _ => g
  | None =>
      mkGlobals (Some Polyfilled) true
        (S (attachShadow_wrappers g)) (S (document_observers g))
  end.

(** ** Proof tools *)

(** Closes an equation between closed terms by evaluation. *)
Ltac vm_refl :=
  lazymatch goal with
  | |- ?l = ?r => exact (eq_refl r <: l = r)
  end.

(** Reads the fields of a world through the setters applied to it. *)
Ltac fields :=
  cbn [dom refMap validityMap internalsMap validationAnchorMap validationMessageMap
       refValueMap shadowRootMap shadowHostsMap hiddenInputMap trace nextObject
       set_dom set_refMap set_validityMap set_internalsMap set_validationAnchorMap
       set_validationMessageMap set_refValueMap set_shadowRootMap set_shadowHostsMap
       set_hiddenInputMap set_trace set_nextObject].

(** * Properties *)

(** ** The gate *)

Lemma gate_pass w ref h msg :
  dom w !! ref = Some h → formAssociated h = true →
  throwIfNotFormAssociated (Some ref) msg w = (Return tt, w).
Proof.
  intros Hh Hfa. unfold throwIfNotFormAssociated, bind, the_host. simpl.
  rewrite Hh. simpl. by rewrite Hfa.
Qed.

Lemma gate_fail w ref h msg :
  dom w !! ref = Some h → formAssociated h = false →
  throwIfNotFormAssociated (Some ref) msg w =
    (Throw (DOMException "NotSupportedError" msg), w).
Proof.
  intros Hh Hfa. unfold throwIfNotFormAssociated, bind, the_host. simpl.
  rewrite Hh. simpl. by rewrite Hfa.
Qed.

(** Every method that starts with [refMap.get(this)] and the gate fails
    there, whatever follows. *)
Lemma gated_fails {A} (this : Internals) (msg : string)
    (k : option Element → M A) w ref h :
  refMap w !! this = Some ref → dom w !! ref = Some h → formAssociated h = false →
  fails_not_supported
    (let* r := refMap_get this in throwIfNotFormAssociated r msg ;; k r) w.
Proof.
  intros Href Hh Hfa. exists (DOMException "NotSupportedError" msg). split; [|done].
  unfold bind at 1. unfold refMap_get, gets. rewrite Href.
  unfold bind at 1. by rewrite (gate_fail _ _ _ _ Hh Hfa).
Qed.

(** ** Reconciliation of the flags *)

Lemma isValid_true (m : ValidityState) :
  isValid m = true ↔ ∀ k, k ≠ "valid" → m !! k ≠ Some true.
Proof.
  unfold isValid. rewrite bool_decide_eq_true, map_Forall_lookup. split.
  - intros H k Hk Hm. specialize (H k true Hm Hk). done.
  - intros H k b Hm Hk. destruct b; [|done]. by destruct (H k Hk).
Qed.

Lemma reconciled_valid cur new :
  reconciled cur new !! "valid" = Some (isValid (new ∪ cur)).
Proof. unfold reconciled. by rewrite lookup_insert_eq. Qed.

Lemma reconciled_named cur new k :
  k ≠ "valid" → reconciled cur new !! k = (new ∪ cur) !! k.
Proof. intros Hk. unfold reconciled. by rewrite lookup_insert_ne. Qed.

Lemma reconciled_valid_is_nor cur new : valid_is_nor (reconciled cur new).
Proof.
  exists (isValid (new ∪ cur)). split; [apply reconciled_valid|].
  rewrite isValid_true. split; intros H k Hk.
  - rewrite reconciled_named by done. by apply H.
  - rewrite <- reconciled_named by done. by apply H.
Qed.

(** The working copy of line 188-189 read at a named flag: the caller's
    value where the caller gave one, the current value otherwise. *)
Lemma check_named (changes cur : ValidityState) k :
  k ≠ "valid" → delete "valid" (changes ∪ cur) !! k = (changes ∪ cur) !! k.
Proof. intros Hk. by rewrite lookup_delete_ne. Qed.

Lemma check_merged_named (changes cur : ValidityState) k :
  k ≠ "valid" →
  (delete "valid" (changes ∪ cur) ∪ cur) !! k = (changes ∪ cur) !! k.
Proof.
  intros Hk. rewrite lookup_union, check_named by done.
  rewrite lookup_union. destruct (changes !! k), (cur !! k); done.
Qed.

Lemma check_ignores_valid (changes cur : ValidityState) b :
  delete "valid" (<["valid" := b]> changes ∪ cur) = delete "valid" (changes ∪ cur).
Proof. by rewrite <- insert_union_l, delete_insert_eq. Qed.

Lemma all_clear_named (v : ValidityState) k :
  k ≠ "valid" → all_clear v !! k = (λ _, false) <$> v !! k.
Proof. intros Hk. unfold all_clear. by rewrite lookup_insert_ne, lookup_fmap. Qed.

(** ** [setValidity], step by step *)

(** The world after lines 179-190 for an attached, form-associated
    instance holding [v]: the anchor is stored, an empty argument clears the
    object, and the object is reconciled with the working copy. *)
Definition reconciled_world (this : Internals) (v changes : ValidityState)
    (anchor : option Element) (w : World) : World :=
  let v0 := if bool_decide (size changes = 0) then all_clear v else v in
  set_validityMap <[this := reconciled v0 (delete "valid" (changes ∪ v0))]>
    (set_validityMap (if bool_decide (size changes = 0) then <[this := v0]> else id)
       (set_validationAnchorMap <[this := anchor]> w)).

Lemma setValidity_run w this ref h v changes msg anchor :
  refMap w !! this = Some ref → dom w !! ref = Some h →
  formAssociated h = true → validityMap w !! this = Some v →
  let v0 := if bool_decide (size changes = 0) then all_clear v else v in
  let v' := reconciled v0 (delete "valid" (changes ∪ v0)) in
  let valid := default false (v' !! "valid") in
  let w1 := reconciled_world this v changes anchor w in
  setValidity this (Some changes) msg anchor w =
    if negb valid && negb (truthy msg) then (Throw message_required, w1)
    else (Return tt,
          set_dom (alter (with_attribute "aria-invalid"
                            (if negb valid then "true" else "false")) ref)
            (set_validationMessageMap <[this := if valid then Some "" else msg]> w1)).
Proof.
  intros Href Hh Hfa Hv. simpl. unfold reconciled_world, setValidity.
  unfold bind at 1. unfold refMap_get, gets. rewrite Href.
  unfold bind at 1. rewrite (gate_pass _ _ _ _ Hh Hfa).
  unfold bind at 1. unfold modify at 1.
  unfold bind at 1.
  destruct (bool_decide (size changes = 0)) eqn:Hsz.
  - unfold setValid. simpl. rewrite Hv.
    unfold bind at 1. unfold spread, gets. simpl. rewrite lookup_insert_eq. simpl.
    unfold bind at 1. unfold reconcileValidty. simpl. rewrite lookup_insert_eq.
    match goal with
    | |- context [negb ?b && _] => destruct (negb b && negb (truthy msg)) eqn:Hb
    end.
    + reflexivity.
    + unfold setAttribute, the_host, modify, ret, bind. simpl. by rewrite Hh.
  - unfold ret at 1.
    unfold bind at 1. unfold spread, gets. simpl. rewrite Hv. simpl.
    unfold bind at 1. unfold reconcileValidty. simpl. rewrite Hv.
    match goal with
    | |- context [negb ?b && _] => destruct (negb b && negb (truthy msg)) eqn:Hb
    end.
    + reflexivity.
    + unfold setAttribute, the_host, modify, ret, bind. simpl. by rewrite Hh.
Qed.

(** A call that is not made on an attached, form-associated instance with
    a flags argument throws before it writes anything but the anchor, and
    does so whatever the flags are. *)
Lemma setValidity_early w this changes msg anchor :
  (∃ ref h v c, changes = Some c ∧ refMap w !! this = Some ref ∧
     dom w !! ref = Some h ∧ formAssociated h = true ∧
     validityMap w !! this = Some v)
  ∨ (∃ e w', setValidity this changes msg anchor w = (Throw e, w') ∧
       dom w' = dom w ∧ validationMessageMap w' = validationMessageMap w ∧
       validityMap w' = validityMap w ∧
       (∀ ref h v,
          refMap w !! this = Some ref → dom w !! ref = Some h →
          formAssociated h = true → validityMap w !! this = Some v →
          changes = None) ∧
       ∀ c c', changes = Some c → c ≠ ∅ → c' ≠ ∅ →
         setValidity this (Some c') msg anchor w = (Throw e, w')).
Proof.
  unfold setValidity, setAttribute, refMap_get, throwIfNotFormAssociated, the_host,
    modify, setValid, spread, reconcileValidty, gets, ret, throw, bind.
  destruct (refMap w !! this) as [ref|] eqn:Href; simpl;
    [|right; eexists _, _; by repeat split].
  destruct (dom w !! ref) as [h|] eqn:Hh; simpl;
    [|right; eexists _, _; repeat split; try done; intros; simplify_eq].
  destruct (formAssociated h) eqn:Hfa;
    [|right; eexists _, _; repeat split; try done; intros; simplify_eq; congruence].
  destruct changes as [c|]; [|right; eexists _, _; by repeat split].
  destruct (validityMap w !! this) as [v|] eqn:Hv.
  { left. by exists ref, h, v, c. }
  right.
  destruct (bool_decide (size c = 0)) eqn:Hsz; simpl; rewrite ?Hv.
  - eexists _, _. do 4 (split; [done|]). split; [intros; simplify_eq|].
    intros c1 c' [= <-] Hc1. apply bool_decide_eq_true in Hsz.
    by apply map_size_empty_iff in Hsz.
  - eexists _, _. do 4 (split; [done|]). split; [intros; simplify_eq|].
    intros c1 c' _ _ Hc'. apply map_size_non_empty_iff in Hc'.
    rewrite bool_decide_eq_false_2 by done. simpl. by rewrite Hv.
Qed.

Lemma setValidity_inv w w' this changes msg anchor :
  setValidity this changes msg anchor w = (Return tt, w') →
  ∃ ref h v c, changes = Some c ∧ refMap w !! this = Some ref ∧
    dom w !! ref = Some h ∧ formAssociated h = true ∧
    validityMap w !! this = Some v.
Proof.
  intros Hrun. destruct (setValidity_early w this changes msg anchor)
    as [?|(e & w1 & Hthrow & _)]; [done|]. congruence.
Qed.

(** After a successful call the stored object is the reconciled one, and
    the outcome of the message check was "pass". *)
Lemma setValidity_ok w w' this changes msg anchor :
  setValidity this changes msg anchor w = (Return tt, w') →
  ∃ ref h cur new valid,
    refMap w !! this = Some ref ∧ dom w !! ref = Some h ∧
    validityMap w' !! this = Some (reconciled cur new) ∧
    reconciled cur new !! "valid" = Some valid ∧
    (valid = false → truthy msg = true) ∧
    validationMessageMap w' !! this = Some (if valid then Some "" else msg) ∧
    aria_invalid w' ref = Some (if valid then "false" else "true").
Proof.
  intros Hrun.
  destruct (setValidity_inv _ _ _ _ _ _ Hrun) as (ref & h & v & c & -> & Href & Hh & Hfa & Hv).
  rewrite (setValidity_run _ _ _ _ _ _ _ _ Href Hh Hfa Hv) in Hrun.
  set (v0 := if bool_decide (size c = 0) then all_clear v else v) in *.
  set (new := delete "valid" (c ∪ v0)) in *.
  rewrite reconciled_valid in Hrun. simpl in Hrun.
  exists ref, h, v0, new, (isValid (new ∪ v0)).
  destruct (isValid (new ∪ v0)) eqn:Hvalid; simpl in Hrun.
  - injection Hrun as <-. unfold aria_invalid. simpl.
    rewrite !lookup_insert_eq, lookup_alter_eq, Hh. simpl.
    rewrite lookup_insert_eq, reconciled_valid, Hvalid. by repeat split.
  - destruct (truthy msg) eqn:Hmsg; simpl in Hrun; [|done].
    injection Hrun as <-. unfold aria_invalid. simpl.
    rewrite !lookup_insert_eq, lookup_alter_eq, Hh. simpl.
    rewrite lookup_insert_eq, reconciled_valid, Hvalid. by repeat split.
Qed.

Lemma nonempty_of_lookup (changes : ValidityState) k b :
  changes !! k = Some b → bool_decide (size changes = 0) = false.
Proof.
  intros Hk. apply bool_decide_eq_false_2, map_size_non_empty_iff.
  intros ->. by rewrite lookup_empty in Hk.
Qed.

(** A true named flag in the merge and no message: the call throws at
    line 193, after the reconciliation of line 190. *)
Lemma setValidity_rejects w this ref h v changes k msg anchor :
  refMap w !! this = Some ref → dom w !! ref = Some h →
  formAssociated h = true → validityMap w !! this = Some v →
  changes ≠ ∅ → k ≠ "valid" → (changes ∪ v) !! k = Some true →
  truthy msg = false →
  setValidity this (Some changes) msg anchor w =
    (Throw message_required, reconciled_world this v changes anchor w).
Proof.
  intros Href Hh Hfa Hv Hne Hk Hflag Hmsg.
  rewrite (setValidity_run _ _ _ _ _ _ _ _ Href Hh Hfa Hv). cbv zeta.
  apply map_size_non_empty_iff in Hne.
  rewrite (bool_decide_eq_false_2 _ Hne), reconciled_valid, Hmsg.
  assert (isValid (delete "valid" (changes ∪ v) ∪ v) = false) as ->; [|done].
  apply not_true_is_false. rewrite isValid_true. intros H.
  apply (H k Hk). by rewrite check_merged_named.
Qed.

(** C1: after each successful call of any sequence of [setValidity] calls
    on an instance, the stored [ValidityState] has [valid] equal to the NOR
    of its named flags; and a [valid] key in the flags argument is never
    taken over: the call does the same whatever value the key carries. *)
Theorem C1_valid_is_nor_of_named_flags :
  (∀ this calls w,
     Forall (λ r, r.1 = Return tt →
                  ∃ v, validityMap r.2 !! this = Some v ∧ valid_is_nor v)
       (setValidity_calls this calls w))
  ∧ (∀ this changes b b' msg anchor w,
       setValidity this (Some (<["valid" := b]> changes)) msg anchor w =
       setValidity this (Some (<["valid" := b']> changes)) msg anchor w).
Proof.
  split.
  - intros this calls. induction calls as [|c rest IH]; intros w; simpl.
    + constructor.
    + constructor; [|apply IH].
      destruct (setValidity this (call_flags c) (call_message c) (call_anchor c) w)
        as [o w'] eqn:Hrun. simpl. intros ->.
      destruct (setValidity_ok _ _ _ _ _ _ Hrun)
        as (ref & h & cur & new & valid & _ & _ & Hv' & _).
      eexists. split; [exact Hv'|]. apply reconciled_valid_is_nor.
  - intros this changes b b' msg anchor w.
    destruct (setValidity_early w this (Some (<["valid" := b]> changes)) msg anchor)
      as [(ref & h & v & c & _ & Href & Hh & Hfa & Hv)|(e & w' & Hthrow & _ & _ & _ & _ & Hany)].
    + rewrite !(setValidity_run _ _ _ _ _ _ _ _ Href Hh Hfa Hv). cbv zeta.
      unfold reconciled_world.
      rewrite !(nonempty_of_lookup _ "valid" _ (lookup_insert_eq _ _ _)).
      by rewrite !check_ignores_valid.
    + rewrite Hthrow. symmetry.
      apply (Hany (<["valid" := b]> changes)); [done| |]; apply insert_non_empty.
Qed.

(** C3, as the code has it: a call with a named flag set to true and no
    message always fails, and the failure leaves the stored message and
    every attribute of the host as they were; the flags, though, are
    reconciled before the message is looked at: on a form-associated host
    the stored object already carries the caller's flags over the previous
    ones, with [valid] recomputed to false. *)
Theorem C3_flag_without_message_fails w this changes k msg anchor :
  k ≠ "valid" → changes !! k = Some true → truthy msg = false →
  ∃ e w',
    setValidity this (Some changes) msg anchor w = (Throw e, w') ∧
    validationMessageMap w' = validationMessageMap w ∧
    dom w' = dom w ∧
    (∀ ref h v,
       refMap w !! this = Some ref → dom w !! ref = Some h →
       formAssociated h = true → validityMap w !! this = Some v →
       e = message_required ∧
       ∃ v', validityMap w' !! this = Some v' ∧ v' !! "valid" = Some false ∧
             ∀ k', k' ≠ "valid" → v' !! k' = (changes ∪ v) !! k').
Proof.
  intros Hk Hflag Hmsg.
  assert (changes ≠ ∅) as Hne by (intros ->; by rewrite lookup_empty in Hflag).
  destruct (setValidity_early w this (Some changes) msg anchor)
    as [(ref & h & v & c & [= <-] & Href & Hh & Hfa & Hv)
       |(e & w' & Hthrow & Hdom & Hmessage & _ & Hnot & _)].
  - assert ((changes ∪ v) !! k = Some true) as Hmerged
      by (by rewrite lookup_union, Hflag; destruct (v !! k)).
    rewrite (setValidity_rejects _ _ _ _ _ _ _ _ _ Href Hh Hfa Hv Hne Hk Hmerged Hmsg).
    eexists _, _. split; [done|]. split; [done|]. split; [done|].
    intros ref' h' v' Href' Hh' _ Hv'. simplify_eq. split; [done|].
    unfold reconciled_world. rewrite (nonempty_of_lookup _ _ _ Hflag). simpl.
    rewrite lookup_insert_eq. eexists. split; [done|]. split.
    + rewrite reconciled_valid. f_equal. apply not_true_is_false.
      rewrite isValid_true. intros H. apply (H k Hk).
      by rewrite check_merged_named.
    + intros k' Hk'. by rewrite reconciled_named, check_merged_named.
  - exists e, w'. split; [done|]. split; [done|]. split; [done|].
    intros ref h v Href Hh Hfa Hv. by specialize (Hnot _ _ _ Href Hh Hfa Hv).
Qed.

(** C3, as the claim states it, fails on the flags: on the freshly
    attached form-associated field, [setValidity({valueMissing: true})]
    without a message throws and leaves [valueMissing] set. *)
Lemma C3_counterexample :
  let before := Demo.attached in
  let r := setValidity Demo.internals (Some {["valueMissing" := true]}) None None before in
  throws r.1 = true
  ∧ validityMap before !! Demo.internals ≫= (.!! "valueMissing") = Some false
  ∧ validityMap r.2 !! Demo.internals ≫= (.!! "valueMissing") = Some true
  ∧ validityMap r.2 !! Demo.internals ≠ validityMap before !! Demo.internals.
Proof.
  cbv zeta. split; [by vm_compute|]. split; [by vm_compute|]. split; [by vm_compute|].
  intros Heq. apply (f_equal (λ o, o ≫= (.!! "valueMissing"))) in Heq.
  vm_compute in Heq. discriminate.
Qed.

Lemma C3_witness :
  ∃ e w',
    setValidity Demo.internals (Some {["valueMissing" := true]}) None None Demo.attached
      = (Throw e, w') ∧
    validationMessageMap w' = validationMessageMap Demo.attached ∧
    dom w' = dom Demo.attached.
Proof.
  destruct (C3_flag_without_message_fails Demo.attached Demo.internals
              {["valueMissing" := true]} "valueMissing" None None)
    as (e & w' & Hrun & Hmessage & Hdom & _);
    [discriminate | reflexivity | reflexivity |].
  exists e, w'. split; [exact Hrun|]. split; [exact Hmessage | exact Hdom].
Defined.

(** C4, what the code does: whenever the merged flags are invalid (the
    argument is not empty and a named flag is true in the overlay of the
    argument on the stored flags) and the message is omitted or empty,
    [setValidity] throws the [DOMException] of line 193, which is not a
    [TypeError]. *)
Theorem C4_message_required_is_a_DOMException w this ref h v changes k msg anchor :
  refMap w !! this = Some ref → dom w !! ref = Some h →
  formAssociated h = true → validityMap w !! this = Some v →
  changes ≠ ∅ → k ≠ "valid" → (changes ∪ v) !! k = Some true →
  truthy msg = false →
  ∃ e w',
    setValidity this (Some changes) msg anchor w = (Throw e, w') ∧
    e = message_required ∧ is_TypeError e = false.
Proof.
  intros Href Hh Hfa Hv Hne Hk Hflag Hmsg.
  rewrite (setValidity_rejects _ _ _ _ _ _ _ _ _ Href Hh Hfa Hv Hne Hk Hflag Hmsg).
  by eexists _, _.
Qed.

Lemma C4_witness :
  ∃ e w',
    setValidity Demo.internals (Some {["valueMissing" := true]}) (Some "") None
      Demo.attached = (Throw e, w') ∧
    e = message_required ∧ is_TypeError e = false.
Proof.
  eapply (C4_message_required_is_a_DOMException Demo.attached Demo.internals
            Demo.field _ _ {["valueMissing" := true]} "valueMissing" (Some "") None).
  - reflexivity.
  - reflexivity.
  - reflexivity.
  - reflexivity.
  - intros Hempty. apply (f_equal (λ m, m !! "valueMissing")) in Hempty. discriminate.
  - discriminate.
  - reflexivity.
  - reflexivity.
Defined.

(** C5: on a form-associated host, whatever flags are stored,
    [setValidity({})] succeeds and leaves every named flag false and
    [valid] true; leaving the argument out is something else, a
    [TypeError] that changes nothing. *)
Theorem C5_empty_flags_reset w this ref h v msg anchor :
  refMap w !! this = Some ref → dom w !! ref = Some h →
  formAssociated h = true → validityMap w !! this = Some v →
  (∃ w' v',
     setValidity this (Some ∅) msg anchor w = (Return tt, w') ∧
     validityMap w' !! this = Some v' ∧
     v' !! "valid" = Some true ∧
     ∀ k, k ≠ "valid" → v' !! k = (λ _, false) <$> v !! k)
  ∧ (∃ e, setValidity this None msg anchor w = (Throw e, w) ∧ is_TypeError e = true).
Proof.
  intros Href Hh Hfa Hv. split; cycle 1.
  { unfold setValidity. unfold bind at 1. unfold refMap_get, gets. rewrite Href.
    unfold bind at 1. rewrite (gate_pass _ _ _ _ Hh Hfa). by eexists. }
  rewrite (setValidity_run _ _ _ _ _ _ _ _ Href Hh Hfa Hv). cbv zeta.
  unfold reconciled_world.
  rewrite (bool_decide_eq_true_2 _ (map_size_empty (A:=bool))).
  assert (isValid (delete "valid" (∅ ∪ all_clear v) ∪ all_clear v) = true) as Hvalid.
  { apply isValid_true. intros k Hk.
    rewrite check_merged_named, lookup_union, lookup_empty, (left_id None _), all_clear_named by done.
    by destruct (v !! k). }
  rewrite reconciled_valid, Hvalid. simpl.
  eexists _, _. split; [done|]. simpl. rewrite lookup_insert_eq.
  split; [done|]. split; [by rewrite reconciled_valid, Hvalid|].
  intros k Hk.
  by rewrite reconciled_named, check_merged_named, lookup_union, lookup_empty, (left_id None _), all_clear_named.
Qed.

Lemma C5_witness :
  ∃ w' v',
    setValidity Demo.internals (Some ∅) None None Demo.required = (Return tt, w') ∧
    validityMap w' !! Demo.internals = Some v' ∧
    v' !! "valid" = Some true ∧
    v' !! "valueMissing" = Some false.
Proof.
  destruct (C5_empty_flags_reset Demo.required Demo.internals Demo.field
              (mkHost "X-FIELD" true (<["aria-invalid" := "true"]> {["name" := "n"]})
                 false None None [])
              (reconciled new_ValidityState {["valueMissing" := true]}) None None)
    as [(w' & v' & Hrun & Hstored & Hvalid & Hnamed) _];
    [reflexivity | reflexivity | reflexivity | reflexivity |].
  exists w', v'. split; [exact Hrun|]. split; [exact Hstored|]. split; [exact Hvalid|].
  rewrite Hnamed by discriminate. reflexivity.
Defined.

(** C6: on every successful [setValidity] call the stored message is the
    empty string when the recomputed [valid] is true, whatever message was
    passed, and the passed (non-empty) message when it is false; and the
    host's [aria-invalid] attribute is ["false"] when valid, ["true"] when
    not. *)
Theorem C6_message_and_aria_invalid w w' this changes msg anchor :
  setValidity this changes msg anchor w = (Return tt, w') →
  ∃ (ref : Element) (v' : ValidityState) (valid : bool),
    refMap w !! this = Some ref ∧
    validityMap w' !! this = Some v' ∧ v' !! "valid" = Some valid ∧
    validationMessageMap w' !! this = Some (if valid then Some "" else msg) ∧
    (valid = false → truthy msg = true) ∧
    aria_invalid w' ref = Some (if valid then "false" else "true").
Proof.
  intros Hrun.
  destruct (setValidity_ok _ _ _ _ _ _ Hrun)
    as (ref & h & cur & new & valid & Href & _ & Hv' & Hvalid & Hmsg & Hstored & Haria).
  by exists ref, (reconciled cur new), valid.
Qed.

Lemma C6_witness :
  validationMessageMap Demo.required !! Demo.internals = Some (Some "Required")
  ∧ aria_invalid Demo.required Demo.field = Some "true".
Proof.
  destruct (C6_message_and_aria_invalid Demo.attached Demo.required Demo.internals
              (Some {["valueMissing" := true]}) (Some "Required") None)
    as (ref & v' & valid & Href & Hv' & Hvalid & Hmessage & _ & Haria);
    [reflexivity|].
  injection Href as <-.
  assert (valid = false) as ->.
  { assert (validityMap Demo.required !! Demo.internals ≫= (.!! "valid") = Some false)
      as Hstored by reflexivity.
    rewrite Hv' in Hstored. simpl in Hstored. congruence. }
  split; [exact Hmessage | exact Haria].
Defined.

(** ** [checkValidity] *)

(** C7: on a form-associated host [checkValidity()] returns the stored
    [valid] flag; when the flag is true the world is left exactly as it
    was, and when it is false the only change is one event on the host,
    of type "invalid", not bubbling, cancelable, not composed.  The host
    [h] is arbitrary, so the result is the same whether or not a listener
    cancels the event. *)
Theorem C7_checkValidity_returns_valid w this ref h v (valid : bool) :
  refMap w !! this = Some ref → dom w !! ref = Some h →
  formAssociated h = true → validityMap w !! this = Some v →
  v !! "valid" = Some valid →
  checkValidity this w =
    (Return valid,
     if valid then w
     else set_trace
            (λ t, t ++ [DispatchEvent ref (mkEvent "invalid" false true false)]) w).
Proof.
  intros Href Hh Hfa Hv Hvalid. unfold checkValidity. cbv zeta.
  unfold bind at 1. unfold refMap_get, gets. rewrite Href.
  unfold bind at 1. rewrite (gate_pass _ _ _ _ Hh Hfa).
  unfold bind at 1. unfold read_valid at 1. rewrite Hv, Hvalid.
  unfold default, negb. destruct valid.
  - unfold ret, read_valid, bind. simpl. by rewrite Hv, Hvalid.
  - unfold dispatchEvent, the_host, emit, modify, ret, read_valid, bind. simpl.
    rewrite Hh. simpl. by rewrite Hv, Hvalid.
Qed.

Lemma C7_witness :
  checkValidity Demo.internals Demo.required =
    (Return false,
     set_trace
       (λ t, t ++ [DispatchEvent Demo.field (mkEvent "invalid" false true false)])
       Demo.required).
Proof.
  apply (C7_checkValidity_returns_valid Demo.required Demo.internals Demo.field
           (mkHost "X-FIELD" true (<["aria-invalid" := "true"]> {["name" := "n"]})
              false None None [])
           (reconciled new_ValidityState {["valueMissing" := true]}) false);
    reflexivity.
Defined.

(** ** The gate on every accessor *)

(** C9: when the host's class does not declare itself form-associated,
    each of [form], [labels], [validity], [validationMessage],
    [willValidate], [checkValidity], [reportValidity], [setValidity] and
    [setFormValue] throws the association error and changes nothing.  The
    world [w] is arbitrary: the declaration is read off the element at
    the call, whatever earlier calls did. *)
Theorem C9_accessors_are_gated w this ref h :
  refMap w !! this = Some ref → dom w !! ref = Some h → formAssociated h = false →
  fails_not_supported (form this) w
  ∧ fails_not_supported (labels this) w
  ∧ fails_not_supported (validity this) w
  ∧ fails_not_supported (validationMessage this) w
  ∧ fails_not_supported (willValidate this) w
  ∧ fails_not_supported (checkValidity this) w
  ∧ fails_not_supported (reportValidity this) w
  ∧ (∀ changes msg anchor, fails_not_supported (setValidity this changes msg anchor) w)
  ∧ (∀ value, fails_not_supported (setFormValue this value) w).
Proof.
  intros Href Hh Hfa.
  repeat split; intros; eapply gated_fails; eauto.
Qed.

Lemma C9_witness :
  (validity Demo.internals Demo.required).1 =
    Return (Some (reconciled new_ValidityState {["valueMissing" := true]}))
  ∧ fails_not_supported (validity Demo.internals) (undeclare Demo.field Demo.required)
  ∧ fails_not_supported (checkValidity Demo.plain_internals) Demo.required.
Proof.
  split; [reflexivity|]. split.
  - apply (C9_accessors_are_gated (undeclare Demo.field Demo.required) Demo.internals
             Demo.field
             (mkHost "X-FIELD" false (<["aria-invalid" := "true"]> {["name" := "n"]})
                false None None [])); reflexivity.
  - apply (C9_accessors_are_gated Demo.required Demo.plain_internals Demo.plain
             (mkHost "X-PLAIN" false ∅ false None None [])); reflexivity.
Defined.

(** ** [shadowRoot] *)

(** C10: [shadowRoot] has no gate.  On every world and instance, whatever
    the host's class declares, the getter returns without throwing and
    without changing anything: the shadow root recorded for the host, and
    [null] when there is none; and after the patched [attachShadow] has run
    on the host, the getter returns the root that call made. *)
Theorem C10_shadowRoot_is_not_gated :
  (∀ w this,
     shadowRoot this w = (Return (refMap w !! this ≫= (shadowRootMap w !!.)), w))
  ∧ (∀ w this host mode,
       refMap w !! this = Some host →
       ∃ root w',
         attachShadowObserver host mode w = (Return root, w') ∧
         shadowRoot this w' = (Return (Some root), w')).
Proof.
  split.
  - intros w this. unfold shadowRoot, refMap_get, gets, ret, bind.
    destruct (refMap w !! this ≫= (shadowRootMap w !!.)) eqn:Hroot; [|done].
    by rewrite Hroot.
  - intros w this host mode Href. eexists _, _. split; [reflexivity|].
    unfold shadowRoot, refMap_get, gets, ret, bind. simpl.
    rewrite Href. simpl. rewrite lookup_insert_eq. simpl.
    by rewrite lookup_insert_eq.
Qed.

Lemma C10_witness :
  shadowRoot Demo.plain_internals Demo.attached = (Return None, Demo.attached)
  ∧ ∃ root w',
      attachShadowObserver Demo.plain Open Demo.attached = (Return root, w') ∧
      shadowRoot Demo.plain_internals w' = (Return (Some root), w').
Proof.
  split.
  - apply (proj1 C10_shadowRoot_is_not_gated Demo.attached Demo.plain_internals).
  - apply (proj2 C10_shadowRoot_is_not_gated Demo.attached Demo.plain_internals
             Demo.plain Open). reflexivity.
Defined.

(** ** [setFormValue] *)

Lemma getAttribute_run w ref h name :
  dom w !! ref = Some h →
  getAttribute (Some ref) name w = (Return (attributes h !! name), w).
Proof.
  intros Hh. unfold getAttribute, the_host, ret, bind. simpl. by rewrite Hh.
Qed.

Lemma createHiddenInput_run w ref h this l :
  dom w !! ref = Some h → hiddenInputMap w !! this = Some l →
  createHiddenInput (Some ref) this w =
    (Return (this, length l),
     set_hiddenInputMap
       <[this := l ++ [mkHiddenInput (default "" (attributes h !! "name")) ""]]> w).
Proof.
  intros Hh Hl.
  unfold createHiddenInput, getAttribute, the_host, gets, modify, ret, bind. simpl.
  rewrite Hh. simpl. by rewrite Hl.
Qed.

Lemma alter_last {A} (f : A → A) (l : list A) (x : A) :
  alter f (length l) (l ++ [x]) = l ++ [f x].
Proof. rewrite alter_app_r_alt by done. by rewrite Nat.sub_diag. Qed.

(** One string-valued entry: a new input, then its name and value. *)
Lemma string_entry_run w ref h this l key s :
  dom w !! ref = Some h → hiddenInputMap w !! this = Some l →
  ∃ w',
    (let* hiddenInput := createHiddenInput (Some ref) this in
     set_input_name hiddenInput key ;; set_input_value hiddenInput s) w = (Return tt, w') ∧
    dom w' = dom w ∧ refMap w' = refMap w ∧
    hiddenInputMap w' !! this = Some (l ++ [mkHiddenInput key s]).
Proof.
  intros Hh Hl. unfold bind at 1. rewrite (createHiddenInput_run _ _ _ _ _ Hh Hl).
  eexists. split; [reflexivity|]. simpl. split; [done|]. split; [done|].
  rewrite !lookup_alter_eq, lookup_insert_eq. simpl. by rewrite !alter_last.
Qed.

Lemma forEach_entry_run ref h this entries :
  ∀ w l,
    dom w !! ref = Some h → hiddenInputMap w !! this = Some l →
    ∃ w',
      forEach_entry (Some ref) this entries w = (Return tt, w') ∧
      dom w' = dom w ∧ refMap w' = refMap w ∧
      hiddenInputMap w' !! this = Some (l ++ proxies_for h (VFormData entries)).
Proof.
  induction entries as [|[key value] rest IH]; intros w l Hh Hl.
  - exists w. by rewrite app_nil_r.
  - destruct value as [s|file].
    + destruct (string_entry_run w ref h this l key s Hh Hl)
        as (w1 & Hstep & Hdom1 & Href1 & Hl1).
      rewrite <- Hdom1 in Hh.
      destruct (IH w1 _ Hh Hl1) as (w' & Hrest & Hdom' & Href' & Hl').
      exists w'. split.
      { simpl. unfold bind at 1. by rewrite Hstep. }
      split; [congruence|]. split; [congruence|].
      rewrite Hl'. simpl. by rewrite <- app_assoc.
    + destruct (IH w l Hh Hl) as (w' & Hrest & Hdom' & Href' & Hl').
      exists w'. split; [|done].
      simpl. unfold bind at 1. unfold ret at 1. exact Hrest.
Qed.

(** C8: after [setFormValue(value)] on a form-associated host, the proxy
    inputs of the instance are exactly those the value asks for: none for
    [null]; none for a string when the host has no non-empty [name], one
    with the host's name and the string otherwise; and for entries, one per
    string-valued entry, named by its key, in order.  The world [w] is
    arbitrary: nothing of what an earlier call left remains. *)
Theorem C8_setFormValue_proxies w this ref h value :
  refMap w !! this = Some ref → dom w !! ref = Some h → formAssociated h = true →
  ∃ w',
    setFormValue this value w = (Return tt, w') ∧
    hiddenInputMap w' !! this = Some (proxies_for h value) ∧
    refValueMap w' !! ref = Some value.
Proof.
  intros Href Hh Hfa. unfold setFormValue.
  unfold bind at 1. unfold refMap_get, gets. rewrite Href.
  unfold bind at 1. rewrite (gate_pass _ _ _ _ Hh Hfa).
  unfold bind at 1. unfold removeHiddenInputs, modify at 1.
  set (w0 := set_hiddenInputMap <[this := []]> w).
  assert (dom w0 !! ref = Some h) as Hh0 by done.
  assert (hiddenInputMap w0 !! this = Some []) as Hl0
    by (simpl; apply lookup_insert_eq).
  destruct value as [|s|entries].
  - eexists. split; [reflexivity|]. simpl. by rewrite !lookup_insert_eq.
  - unfold bind at 1. unfold bind at 1.
    rewrite (getAttribute_run _ _ _ _ Hh0). unfold truthy.
    destruct (attributes h !! "name") as [n|] eqn:Hname; simpl.
    + destruct (bool_decide (n = "")) eqn:Hn; simpl.
      * eexists. split; [reflexivity|]. simpl. by rewrite !lookup_insert_eq, Hname, Hn.
      * unfold bind at 1. rewrite (createHiddenInput_run _ _ _ _ _ Hh0 Hl0).
        eexists. split; [reflexivity|]. simpl.
        by rewrite lookup_alter_eq, !lookup_insert_eq, Hname, Hn.
    + eexists. split; [reflexivity|]. simpl. by rewrite !lookup_insert_eq, Hname.
  - destruct (forEach_entry_run ref h this entries w0 [] Hh0 Hl0)
      as (w' & Hrun & _ & _ & Hl').
    unfold bind at 1. rewrite Hrun. eexists. split; [reflexivity|].
    simpl. by rewrite lookup_insert_eq.
Qed.

Lemma C8_witness :
  ∃ w',
    setFormValue Demo.internals
      (VFormData [("a", EntryString "1"); ("f", EntryFile 1); ("b", EntryString "2")])
      (setFormValue Demo.internals (VString "x") Demo.attached).2 = (Return tt, w') ∧
    hiddenInputMap w' !! Demo.internals =
      Some [mkHiddenInput "a" "1"; mkHiddenInput "b" "2"].
Proof.
  destruct (C8_setFormValue_proxies
              (setFormValue Demo.internals (VString "x") Demo.attached).2
              Demo.internals Demo.field
              (mkHost "X-FIELD" true {["name" := "n"]} false None None [])
              (VFormData [("a", EntryString "1"); ("f", EntryFile 1); ("b", EntryString "2")]))
    as (w' & Hrun & Hproxies & _); [reflexivity | reflexivity | reflexivity |].
  exists w'. split; [exact Hrun | exact Hproxies].
Defined.

(** ** [attachInternals] *)

Lemma hyphen_nonempty (s : string) :
  no_hyphen s = false → bool_decide (s = "") = false.
Proof. intros Hs. apply bool_decide_eq_false_2. by intros ->. Qed.

(** The accessors read the instance through the maps and the document
    only. *)
Lemma validity_reads w w' this :
  instance_state w' this = instance_state w this → dom w' = dom w →
  (validity this w').1 = (validity this w).1.
Proof.
  intros [= Href Hv _ _ _] Hdom.
  unfold validity, refMap_get, throwIfNotFormAssociated, the_host, gets, ret, throw, bind.
  simpl. rewrite Href, Hdom. destruct (refMap w !! this) as [ref|]; simpl; [|done].
  destruct (dom w !! ref) as [h|]; simpl; [|done].
  destruct (formAssociated h); simpl; [|done]. by rewrite Hv.
Qed.

Lemma validationMessage_reads w w' this :
  instance_state w' this = instance_state w this → dom w' = dom w →
  (validationMessage this w').1 = (validationMessage this w).1.
Proof.
  intros [= Href _ Hm _ _] Hdom.
  unfold validationMessage, refMap_get, throwIfNotFormAssociated, the_host, gets,
    ret, throw, bind.
  simpl. rewrite Href, Hdom. destruct (refMap w !! this) as [ref|]; simpl; [|done].
  destruct (dom w !! ref) as [h|]; simpl; [|done].
  destruct (formAssociated h); simpl; [|done]. by rewrite Hm.
Qed.

Lemma checkValidity_reads w w' this :
  instance_state w' this = instance_state w this → dom w' = dom w →
  (checkValidity this w').1 = (checkValidity this w).1.
Proof.
  intros [= Href Hv _ _ _] Hdom.
  unfold checkValidity, dispatchEvent, emit, modify, read_valid, refMap_get,
    throwIfNotFormAssociated, the_host, gets, ret, throw, bind.
  simpl. rewrite Href, Hdom. destruct (refMap w !! this) as [ref|]; simpl; [|done].
  destruct (dom w !! ref) as [h|] eqn:Hh; simpl; [|done].
  destruct (formAssociated h); simpl; [|done]. rewrite Hv.
  destruct (validityMap w !! this) as [v|] eqn:Hv0; simpl; [|done].
  destruct (default false (v !! "valid")); simpl; rewrite ?Hdom, ?Hh; simpl;
    rewrite ?Hv, ?Hv0; done.
Qed.

Lemma form_run w this ref h :
  refMap w !! this = Some ref → dom w !! ref = Some h → formAssociated h = true →
  form this w = (Return (parentForm h), w).
Proof.
  intros Href Hh Hfa. unfold form.
  unfold bind at 1. unfold refMap_get, gets. rewrite Href.
  unfold bind at 1. rewrite (gate_pass _ _ _ _ Hh Hfa).
  unfold findParentForm, the_host, ret, bind. simpl. rewrite Hh. simpl.
  rewrite Hfa. by rewrite Hh.
Qed.

Lemma labels_run w this ref h :
  refMap w !! this = Some ref → dom w !! ref = Some h → formAssociated h = true →
  labels this w = (labels_outcome h, w).
Proof.
  intros Href Hh Hfa. unfold labels, labels_outcome.
  unfold bind at 1. unfold refMap_get, gets. rewrite Href.
  unfold bind at 1. rewrite (gate_pass _ _ _ _ Hh Hfa).
  unfold bind at 1. rewrite (getAttribute_run _ _ _ _ Hh).
  unfold getHostRoot, querySelectorAll, the_host, ret, throw, bind. simpl.
  rewrite Hh. simpl.
  destruct (hostRoot h) as [root|], (attributes h !! "id") as [id|]; simpl; try done.
  destruct (bool_decide (id = "")); simpl; [done|].
  by destruct (root (for_selector id)).
Qed.

Lemma labels_readable_outcome h :
  labels_readable h → ∃ found, labels_outcome h = Return found.
Proof.
  intros Hreadable. unfold labels_outcome.
  destruct (hostRoot h) as [root|] eqn:Hroot; [|by eexists].
  destruct (attributes h !! "id") as [id|] eqn:Hid; [|by eexists].
  destruct (bool_decide (id = "")) eqn:Hempty; [by eexists|].
  apply bool_decide_eq_false in Hempty.
  destruct (Hreadable root id Hroot Hid Hempty) as [found ->]. by eexists.
Qed.

(** The constructor on a custom element, step by step: the instance is
    registered and [initAom] and [initRef] have run (lines 72-78) before
    [labels] is read at line 81; when that read throws, the constructor
    throws with the registration in place. *)
Lemma new_ElementInternals_steps w host h :
  dom w !! host = Some h → no_hyphen (tagName h) = false →
  let this := nextObject w in
  new_ElementInternals (Some host) w =
    if formAssociated h then
      match labels_outcome h with
      | Return found =>
          (Return this,
           set_trace (λ t, t ++ [InitForm host (parentForm h) this])
             (set_trace (λ t, t ++ [InitLabels host found]) (constructed host w)))
      | Throw e => (Throw e, constructed host w)
      end
    else (Return this, constructed host w).
Proof.
  intros Hh Htag. cbv zeta. unfold new_ElementInternals, constructed.
  unfold bind at 1. unfold fresh. unfold bind at 1. unfold gets. simpl.
  rewrite Hh, Htag, (hyphen_nonempty _ Htag). simpl.
  unfold initAom, initRef, emit, modify. do 6 (unfold bind at 1). cbv beta iota.
  destruct (formAssociated h) eqn:Hfa; [|done].
  set (w1 := set_trace _ (set_trace _ _)).
  assert (refMap w1 !! nextObject w = Some host) as Href1
    by (simpl; apply lookup_insert_eq).
  unfold bind at 1. unfold bind at 1. rewrite (labels_run w1 _ host h Href1 Hh Hfa).
  destruct (labels_outcome h) as [found|e]; [|done].
  unfold bind at 1. by rewrite (form_run w1 _ host h Href1 Hh Hfa).
Qed.

(** The constructor on a custom element whose labels can be read: a new
    instance with a fresh [ValidityState], registered for the element;
    nothing is looked up in [internalsMap] on the way. *)
Lemma new_ElementInternals_run w host h :
  dom w !! host = Some h → no_hyphen (tagName h) = false →
  (formAssociated h = true → labels_readable h) →
  ∃ w',
    new_ElementInternals (Some host) w = (Return (nextObject w), w') ∧
    dom w' = dom w ∧
    refMap w' = <[nextObject w := host]> (refMap w) ∧
    validityMap w' = <[nextObject w := new_ValidityState]> (validityMap w) ∧
    internalsMap w' = <[host := nextObject w]> (internalsMap w) ∧
    validationMessageMap w' = validationMessageMap w ∧
    validationAnchorMap w' = validationAnchorMap w ∧
    hiddenInputMap w' = hiddenInputMap w ∧
    refValueMap w' = refValueMap w.
Proof.
  intros Hh Htag Hreadable.
  rewrite (new_ElementInternals_steps _ _ _ Hh Htag). cbv zeta.
  destruct (formAssociated h) eqn:Hfa.
  - destruct (labels_readable_outcome h (Hreadable eq_refl)) as [found ->].
    eexists. split; [reflexivity|]. by repeat split.
  - eexists. split; [reflexivity|]. by repeat split.
Qed.

Lemma instance_state_validity w w' this :
  instance_state w' this = instance_state w this →
  validityMap w' !! this = validityMap w !! this.
Proof. by intros [= _ Hv _ _ _]. Qed.

(** C2, as the claim states it, fails: the second [attachInternals()] on
    the same custom element does not throw; it returns another
    instance. *)
Lemma C2_counterexample :
  let first := attachInternals Demo.field Demo.document in
  let second := attachInternals Demo.field first.2 in
  first.1 = Return 10%positive
  ∧ second.1 = Return 11%positive
  ∧ throws second.1 = false.
Proof. cbv zeta. by vm_compute. Qed.

(** C2, as the code has it: on a custom element that already has an
    instance [first], and whose labels can be read if its class is
    form-associated (line 81 reads them), [attachInternals()] succeeds
    again.  It returns a new instance, different from [first], with a fresh
    [ValidityState], and registers it for the element in place of [first].
    What the maps hold for [first] and the document are as before, and
    [first] stays usable: its [validity], [validationMessage] and
    [checkValidity] answer as they did. *)
Theorem C2_second_attach_makes_new_instance w host h first :
  dom w !! host = Some h → no_hyphen (tagName h) = false →
  refMap w !! first = Some host → (first < nextObject w)%positive →
  (formAssociated h = true → labels_readable h) →
  ∃ second w',
    attachInternals host w = (Return second, w') ∧
    second ≠ first ∧
    internalsMap w' !! host = Some second ∧
    refMap w' !! second = Some host ∧
    validityMap w' !! second = Some new_ValidityState ∧
    instance_state w' first = instance_state w first ∧
    dom w' = dom w ∧
    (validity first w').1 = (validity first w).1 ∧
    (validationMessage first w').1 = (validationMessage first w).1 ∧
    (checkValidity first w').1 = (checkValidity first w).1.
Proof.
  intros Hh Htag Hfirst Hlt Hreadable.
  destruct (new_ElementInternals_run w host h Hh Htag Hreadable)
    as (w' & Hrun & Hdom & Href & Hvalidity & Hinternals & Hmessage & Hanchor
        & Hinputs & _).
  assert (nextObject w ≠ first) as Hne by lia.
  assert (instance_state w' first = instance_state w first) as Hstate.
  { unfold instance_state.
    rewrite Href, Hvalidity, Hmessage, Hanchor, Hinputs.
    by rewrite !lookup_insert_ne. }
  exists (nextObject w), w'. split.
  { unfold attachInternals, the_host, bind. simpl. by rewrite Hh, Htag. }
  split; [done|].
  split; [by rewrite Hinternals, lookup_insert_eq|].
  split; [by rewrite Href, lookup_insert_eq|].
  split; [by rewrite Hvalidity, lookup_insert_eq|].
  split; [done|]. split; [done|].
  split; [by apply validity_reads|].
  split; [by apply validationMessage_reads | by apply checkValidity_reads].
Qed.

Lemma C2_witness :
  let attached := (attachInternals Demo.first_field Demo.labelled_document).2 in
  ∃ second w',
    attachInternals Demo.first_field attached = (Return second, w') ∧
    second ≠ 10%positive ∧
    internalsMap w' !! Demo.first_field = Some second ∧
    validityMap w' !! 10%positive = validityMap attached !! 10%positive.
Proof.
  cbv zeta.
  destruct (C2_second_attach_makes_new_instance
              (attachInternals Demo.first_field Demo.labelled_document).2
              Demo.first_field
              (mkHost "X-FIELD" true {["id" := "first"]} false None
                 (Some Demo.labelled_root) [])
              10%positive)
    as (second & w' & Hrun & Hne & Hregistered & _ & _ & Hstate & _).
  - vm_refl.
  - vm_refl.
  - vm_refl.
  - vm_compute. reflexivity.
  - intros _ root id [= <-] Hid Hempty. vm_compute in Hid.
    injection Hid as <-. vm_compute. eauto.
  - exists second, w'. split; [exact Hrun|]. split; [exact Hne|].
    split; [exact Hregistered|]. exact (instance_state_validity _ _ _ Hstate).
Defined.

(** ** Runs on the demo document *)

(** A [valid: true] in the argument does not make an invalid field valid:
    the call is rejected for want of a message, and with a message the
    stored [valid] stays false. *)
Example valid_key_is_not_taken_over :
  (setValidity Demo.internals (Some {["valid" := true]}) None None Demo.required).1
    = Throw message_required
  ∧ (let r := setValidity Demo.internals (Some {["valid" := true]}) (Some "Still required")
                None Demo.required in
     r.1 = Return tt ∧ validityMap r.2 !! Demo.internals ≫= (.!! "valid") = Some false).
Proof. by vm_compute. Qed.

(** The end-to-end run of the spec: attach, [setValidity({valueMissing:
    true}, "Required")], [checkValidity()] is false and dispatches
    "invalid"; then [setValidity({})], [checkValidity()] is true,
    [aria-invalid] is "false" and the message is empty. *)
Example end_to_end :
  let invalid := checkValidity Demo.internals Demo.required in
  let cleared := (setValidity Demo.internals (Some ∅) None None invalid.2).2 in
  invalid.1 = Return false
  ∧ last (trace invalid.2) = Some (DispatchEvent Demo.field invalid_event)
  ∧ (checkValidity Demo.internals cleared).1 = Return true
  ∧ aria_invalid cleared Demo.field = Some "false"
  ∧ (validationMessage Demo.internals cleared).1 = Return (Some "").
Proof. by vm_compute. Qed.

(** * Further properties of the code *)

(** ** Construction *)

(** X1: [attachInternals()] on an element whose tag name has no hyphen throws
    a plain [Error] and leaves everything as it was: no instance is made
    or registered. *)
Theorem attachInternals_rejects_builtin w host h :
  dom w !! host = Some h → no_hyphen (tagName h) = true →
  ∃ message, attachInternals host w = (Throw (Error message), w).
Proof.
  intros Hh Htag. unfold attachInternals, the_host, bind. simpl.
  rewrite Hh, Htag. by eexists.
Qed.

Lemma attachInternals_rejects_builtin_witness :
  ∃ message, attachInternals Demo.div Demo.attached = (Throw (Error message), Demo.attached).
Proof.
  apply (attachInternals_rejects_builtin Demo.attached Demo.div
           (mkHost "DIV" false ∅ false None None [])); vm_refl.
Defined.

(** X2: the constructor called on nothing, on an element with an empty tag
    name, or on one whose tag name has no hyphen throws
    [TypeError('Illegal constructor')] before it writes to any map: the
    only trace of the call is the discarded object. *)
Theorem constructor_illegal w (ref : option Element) :
  match ref ≫= (dom w !!.) with
  | Some h => tagName h = "" ∨ no_hyphen (tagName h) = true
  | None => True
  end →
  new_ElementInternals ref w =
    (Throw (TypeError "Illegal constructor"), set_nextObject Pos.succ w).
Proof.
  intros Hillegal. unfold new_ElementInternals, fresh, gets, throw, bind. simpl.
  destruct ref as [r|]; simpl in *; [|done].
  destruct (dom w !! r) as [h|]; simpl; [|done].
  destruct Hillegal as [->| ->]; [done|]. by rewrite orb_true_r.
Qed.

Lemma constructor_illegal_witness :
  new_ElementInternals (Some Demo.div) Demo.document =
    (Throw (TypeError "Illegal constructor"), set_nextObject Pos.succ Demo.document).
Proof.
  apply (constructor_illegal Demo.document (Some Demo.div)).
  right. vm_refl.
Defined.

(** X3: [attachInternals()] on a custom element succeeds whether or not its
    class is form-associated, provided the labels of a form-associated
    host can be read.  It registers the new instance both ways ([refMap],
    [internalsMap]) with a fresh [ValidityState], and calls [initAom] and
    [initRef]; [initLabels] and [initForm] are called, with the instance's
    own [labels] and [form], only for a form-associated class.  Nothing
    else happens. *)
Theorem attachInternals_registers w host h :
  dom w !! host = Some h → no_hyphen (tagName h) = false →
  (formAssociated h = true → labels_readable h) →
  ∃ w' found,
    let this := nextObject w in
    attachInternals host w = (Return this, w') ∧
    refMap w' !! this = Some host ∧
    internalsMap w' !! host = Some this ∧
    validityMap w' !! this = Some new_ValidityState ∧
    trace w' =
      trace w ++ [InitAom host this; InitRef host this] ++
      (if formAssociated h
       then [InitLabels host found; InitForm host (parentForm h) this]
       else []) ∧
    (formAssociated h = true → labels this w' = (Return found, w')).
Proof.
  intros Hh Htag Hreadable. cbv zeta.
  unfold attachInternals, the_host, bind at 1. simpl. rewrite Hh, Htag.
  rewrite (new_ElementInternals_steps _ _ _ Hh Htag). cbv zeta.
  destruct (formAssociated h) eqn:Hfa.
  - destruct (labels_readable_outcome h (Hreadable eq_refl)) as [found Hfound].
    rewrite Hfound. eexists _, found. split; [reflexivity|].
    unfold constructed. fields. rewrite !lookup_insert_eq. do 3 (split; [done|]).
    split; [by rewrite <- !app_assoc|].
    intros _. erewrite labels_run; [by rewrite Hfound| |exact Hh|exact Hfa].
    fields. apply lookup_insert_eq.
  - eexists _, []. split; [reflexivity|].
    unfold constructed. fields. rewrite !lookup_insert_eq. do 3 (split; [done|]).
    split; [by rewrite <- !app_assoc|]. done.
Qed.

Lemma attachInternals_registers_witness :
  ∃ w' found,
    attachInternals Demo.first_field Demo.labelled_document = (Return 10%positive, w') ∧
    internalsMap w' !! Demo.first_field = Some 10%positive ∧
    trace w' =
      [InitAom Demo.first_field 10%positive; InitRef Demo.first_field 10%positive;
       InitLabels Demo.first_field found; InitForm Demo.first_field None 10%positive].
Proof.
  destruct (attachInternals_registers Demo.labelled_document Demo.first_field
              (mkHost "X-FIELD" true {["id" := "first"]} false None
                 (Some Demo.labelled_root) []))
    as (w' & found & Hrun & _ & Hregistered & _ & Htrace & _).
  - vm_refl.
  - vm_refl.
  - intros _ root id [= <-] Hid Hempty. vm_compute in Hid.
    injection Hid as <-. vm_compute. eauto.
  - exists w', found. split; [exact Hrun|]. split; [exact Hregistered|]. exact Htrace.
Defined.

(** X21: when the host's class is form-associated and the host has a root
    and a non-empty id that does not make a selector (the id goes
    unquoted into the [for] selector of line 123), [attachInternals()]
    throws the [SyntaxError] of [querySelectorAll]; by then the constructor
    has registered the new instance (lines 73-75) and called [initAom] and
    [initRef], and it has not reached [initLabels] and [initForm]. *)
Theorem attachInternals_throws_on_bad_id w host h root id :
  dom w !! host = Some h → no_hyphen (tagName h) = false →
  formAssociated h = true →
  hostRoot h = Some root → attributes h !! "id" = Some id → id ≠ "" →
  root (for_selector id) = None →
  ∃ e w',
    attachInternals host w = (Throw e, w') ∧ is_SyntaxError e = true ∧
    internalsMap w' !! host = Some (nextObject w) ∧
    refMap w' !! nextObject w = Some host ∧
    validityMap w' !! nextObject w = Some new_ValidityState ∧
    trace w' = trace w ++ [InitAom host (nextObject w); InitRef host (nextObject w)].
Proof.
  intros Hh Htag Hfa Hroot Hid Hempty Hrejected.
  unfold attachInternals, the_host, bind at 1. simpl. rewrite Hh, Htag.
  rewrite (new_ElementInternals_steps _ _ _ Hh Htag). cbv zeta.
  rewrite Hfa. unfold labels_outcome.
  rewrite Hroot, Hid, (bool_decide_eq_false_2 _ Hempty), Hrejected.
  eexists _, _. split; [reflexivity|]. split; [done|].
  unfold constructed. fields. rewrite !lookup_insert_eq.
  do 3 (split; [done|]). by rewrite <- app_assoc.
Qed.

Lemma attachInternals_throws_on_bad_id_witness :
  ∃ e w',
    attachInternals Demo.dotted_field Demo.labelled_document = (Throw e, w') ∧
    is_SyntaxError e = true ∧
    internalsMap w' !! Demo.dotted_field = Some 10%positive.
Proof.
  destruct (attachInternals_throws_on_bad_id Demo.labelled_document Demo.dotted_field
              (mkHost "X-FIELD" true {["id" := "a.b"]} false None
                 (Some Demo.labelled_root) [])
              Demo.labelled_root "a.b")
    as (e & w' & Hrun & Hsyntax & Hregistered & _);
    [vm_refl | vm_refl | vm_refl | vm_refl | vm_refl | discriminate | vm_refl |].
  exists e, w'. split; [exact Hrun|]. split; [exact Hsyntax | exact Hregistered].
Defined.

(** ** The accessors on an attached, form-associated instance *)

Lemma validity_run w this ref h :
  refMap w !! this = Some ref → dom w !! ref = Some h → formAssociated h = true →
  validity this w = (Return (validityMap w !! this), w).
Proof.
  intros Href Hh Hfa. unfold validity.
  unfold bind at 1. unfold refMap_get, gets. rewrite Href.
  unfold bind at 1. by rewrite (gate_pass _ _ _ _ Hh Hfa).
Qed.

Lemma validationMessage_run w this ref h :
  refMap w !! this = Some ref → dom w !! ref = Some h → formAssociated h = true →
  validationMessage this w = (Return (mjoin (validationMessageMap w !! this)), w).
Proof.
  intros Href Hh Hfa. unfold validationMessage.
  unfold bind at 1. unfold refMap_get, gets. rewrite Href.
  unfold bind at 1. by rewrite (gate_pass _ _ _ _ Hh Hfa).
Qed.

Lemma checkValidity_run w this ref h v (valid : bool) :
  refMap w !! this = Some ref → dom w !! ref = Some h →
  formAssociated h = true → validityMap w !! this = Some v →
  v !! "valid" = Some valid →
  checkValidity this w =
    (Return valid,
     if valid then w
     else set_trace (λ t, t ++ [DispatchEvent ref invalid_event]) w).
Proof.
  intros Href Hh Hfa Hv Hvalid. unfold checkValidity. cbv zeta.
  unfold bind at 1. unfold refMap_get, gets. rewrite Href.
  unfold bind at 1. rewrite (gate_pass _ _ _ _ Hh Hfa).
  unfold bind at 1. unfold read_valid at 1. rewrite Hv, Hvalid.
  unfold default, negb. destruct valid.
  - unfold ret, read_valid, bind. simpl. by rewrite Hv, Hvalid.
  - unfold dispatchEvent, the_host, emit, modify, ret, read_valid, bind. simpl.
    rewrite Hh. simpl. by rewrite Hv, Hvalid.
Qed.

(** X4: a freshly attached instance of a form-associated element is valid:
    [validity] is the all-false state, [checkValidity()] answers true and
    dispatches nothing, and [validationMessage] is still [undefined]: no
    message has been stored yet, not even the empty one.  (The host's
    labels must be readable for the attach to return; the last hypothesis
    says that the object about to be made is new.) *)
Theorem fresh_instance_is_valid w host h :
  dom w !! host = Some h → no_hyphen (tagName h) = false →
  formAssociated h = true → labels_readable h →
  validationMessageMap w !! nextObject w = None →
  ∃ this w',
    attachInternals host w = (Return this, w') ∧
    validity this w' = (Return (Some new_ValidityState), w') ∧
    checkValidity this w' = (Return true, w') ∧
    validationMessage this w' = (Return None, w').
Proof.
  intros Hh Htag Hfa Hreadable Hnew.
  destruct (new_ElementInternals_run w host h Hh Htag (λ _, Hreadable))
    as (w' & Hrun & Hdom & Href & Hvalidity & _ & Hmessage & _).
  assert (refMap w' !! nextObject w = Some host) as Href'
    by (by rewrite Href, lookup_insert_eq).
  assert (dom w' !! host = Some h) as Hh' by (by rewrite Hdom).
  assert (validityMap w' !! nextObject w = Some new_ValidityState) as Hv'
    by (by rewrite Hvalidity, lookup_insert_eq).
  exists (nextObject w), w'. split.
  { unfold attachInternals, the_host, bind. simpl. by rewrite Hh, Htag. }
  split.
  { rewrite (validity_run _ _ _ _ Href' Hh' Hfa). unfold Internals in *.
    by rewrite Hv'. }
  split.
  { by rewrite (checkValidity_run _ _ _ _ _ true Href' Hh' Hfa Hv'). }
  rewrite (validationMessage_run _ _ _ _ Href' Hh' Hfa), Hmessage.
  unfold Internals in *. by rewrite Hnew.
Qed.

Lemma fresh_instance_is_valid_witness :
  ∃ this w',
    attachInternals Demo.first_field Demo.labelled_document = (Return this, w') ∧
    checkValidity this w' = (Return true, w') ∧
    validationMessage this w' = (Return None, w').
Proof.
  destruct (fresh_instance_is_valid Demo.labelled_document Demo.first_field
              (mkHost "X-FIELD" true {["id" := "first"]} false None
                 (Some Demo.labelled_root) []))
    as (this & w' & Hrun & _ & Hcheck & Hmessage).
  - vm_refl.
  - vm_refl.
  - vm_refl.
  - intros root id [= <-] Hid Hempty. vm_compute in Hid.
    injection Hid as <-. vm_compute. eauto.
  - vm_refl.
  - exists this, w'. split; [exact Hrun|]. split; [exact Hcheck | exact Hmessage].
Defined.

(** X5: the getters [form], [labels], [validity], [validationMessage],
    [willValidate] and [shadowRoot] only read: whether they return or
    throw, on any instance in any world, the world after the call is the
    world before it. *)
Theorem getters_only_read w this :
  (form this w).2 = w ∧ (labels this w).2 = w ∧ (validity this w).2 = w
  ∧ (validationMessage this w).2 = w ∧ (willValidate this w).2 = w
  ∧ (shadowRoot this w).2 = w.
Proof.
  repeat split;
    unfold form, labels, validity, validationMessage, willValidate, shadowRoot,
      findParentForm, getHostRoot, querySelectorAll, getAttribute, hasAttribute,
      refMap_get, throwIfNotFormAssociated, the_host, gets, ret, throw, bind;
    simpl; repeat (case_match; simplify_eq/=; try done).
Qed.

(** X6: [labels] on a form-associated host answers the empty list, never an
    error, when the host has no [id] attribute, an empty one, or no root.
    With a root and a non-empty id the answer is the root's to the [for]
    selector made of the id as it is: its elements, or the [SyntaxError]
    of [querySelectorAll] when the unquoted id does not make a selector.
    Either way nothing changes. *)
Theorem labels_edge_cases w this ref h :
  refMap w !! this = Some ref → dom w !! ref = Some h → formAssociated h = true →
  ((attributes h !! "id" = None ∨ attributes h !! "id" = Some "" ∨ hostRoot h = None) →
     labels this w = (Return [], w))
  ∧ (∀ root id, hostRoot h = Some root → attributes h !! "id" = Some id → id ≠ "" →
       labels this w =
         (match root (for_selector id) with
          | Some found => Return found
          | None => Throw (not_a_selector (for_selector id))
          end, w)).
Proof.
  intros Href Hh Hfa. rewrite (labels_run _ _ _ _ Href Hh Hfa). unfold labels_outcome.
  split.
  - intros [-> | [-> | ->]]; [by destruct (hostRoot h) | by destruct (hostRoot h) | done].
  - intros root id -> -> Hid. rewrite bool_decide_eq_false_2 by done.
    by destruct (root (for_selector id)).
Qed.

Lemma labels_edge_cases_witness :
  let attached := (attachInternals Demo.first_field Demo.labelled_document).2 in
  labels 10%positive attached = (Return [5%positive], attached)
  ∧ labels 10%positive
      (set_dom (alter (with_attribute "id" "a.b") Demo.first_field) attached)
    = (Throw (not_a_selector "[for=a.b]"),
       set_dom (alter (with_attribute "id" "a.b") Demo.first_field) attached).
Proof.
  cbv zeta. split.
  - destruct (labels_edge_cases
                (attachInternals Demo.first_field Demo.labelled_document).2
                10%positive Demo.first_field
                (mkHost "X-FIELD" true {["id" := "first"]} false None
                   (Some Demo.labelled_root) []))
      as [_ Hquery]; [vm_refl | vm_refl | vm_refl |].
    apply (Hquery Demo.labelled_root "first"); [vm_refl | vm_refl | discriminate].
  - destruct (labels_edge_cases
                (set_dom (alter (with_attribute "id" "a.b") Demo.first_field)
                   (attachInternals Demo.first_field Demo.labelled_document).2)
                10%positive Demo.first_field
                (mkHost "X-FIELD" true (<["id" := "a.b"]> {["id" := "first"]}) false
                   None (Some Demo.labelled_root) []))
      as [_ Hquery]; [vm_refl | vm_refl | vm_refl |].
    apply (Hquery Demo.labelled_root "a.b"); [vm_refl | vm_refl | discriminate].
Defined.

(** ** [reportValidity] *)

(** [checkValidity()] whatever the object holds under ["valid"]. *)
Lemma checkValidity_run_any w this ref h v :
  refMap w !! this = Some ref → dom w !! ref = Some h →
  formAssociated h = true → validityMap w !! this = Some v →
  let valid := default false (v !! "valid") in
  checkValidity this w =
    (Return valid,
     if valid then w
     else set_trace (λ t, t ++ [DispatchEvent ref invalid_event]) w).
Proof.
  intros Href Hh Hfa Hv. unfold checkValidity. cbv zeta.
  unfold bind at 1. unfold refMap_get, gets. rewrite Href.
  unfold bind at 1. rewrite (gate_pass _ _ _ _ Hh Hfa).
  unfold bind at 1. unfold read_valid at 1. rewrite Hv.
  destruct (default false (v !! "valid")) eqn:Hvalid; unfold negb.
  - unfold ret, read_valid, bind. simpl. by rewrite Hv, Hvalid.
  - unfold dispatchEvent, the_host, emit, modify, ret, read_valid, bind. simpl.
    rewrite Hh. simpl. by rewrite Hv, Hvalid.
Qed.

(** X7: [reportValidity()] on a form-associated host returns the stored
    [valid] flag.  When the flag is true nothing happens.  When it is
    false the "invalid" event is dispatched once, and if an anchor is on
    record the host is focused and then the anchor; without an anchor no
    focus moves.  Nothing but the trace of these effects changes. *)
Theorem reportValidity_focuses_host_then_anchor w this ref h v (valid : bool) :
  refMap w !! this = Some ref → dom w !! ref = Some h →
  formAssociated h = true → validityMap w !! this = Some v →
  v !! "valid" = Some valid →
  reportValidity this w =
    (Return valid,
     set_trace
       (λ t, t ++
          if valid then []
          else DispatchEvent ref invalid_event ::
               match mjoin (validationAnchorMap w !! this) with
               | Some anchor => [Focus ref; Focus anchor]
               | None => []
               end) w).
Proof.
  intros Href Hh Hfa Hv Hvalid. unfold reportValidity.
  unfold bind at 1. unfold refMap_get, gets. rewrite Href.
  unfold bind at 1. rewrite (gate_pass _ _ _ _ Hh Hfa).
  unfold bind at 1. rewrite (checkValidity_run _ _ _ _ _ _ Href Hh Hfa Hv Hvalid).
  destruct valid.
  - unfold the_host, focus, emit, modify, ret, throw, bind. simpl. rewrite Hh. simpl.
    rewrite Hfa. simpl. rewrite andb_false_r.
    destruct w. unfold set_trace. simpl. by rewrite app_nil_r.
  - unfold the_host, focus, emit, modify, ret, throw, bind. simpl. rewrite Hh. simpl.
    rewrite Hfa. simpl. rewrite andb_false_r.
    destruct (mjoin (validationAnchorMap w !! this)) as [anchor|] eqn:Hanchor; simpl.
    + unfold set_trace. simpl. by rewrite <- !app_assoc.
    + done.
Qed.

(** X8: the guard of lines 134-136 never fires: whatever the instance and the
    world, [reportValidity()] does not throw the [DOMException] built
    there.  (An unassociated host is stopped by the gate of line 131.) *)
Theorem reportValidity_guard_is_dead w this :
  (reportValidity this w).1 ≠
    Throw (DOMException "Error" (not_form_associated "execute 'setValidity' on")).
Proof.
  destruct (refMap w !! this) as [ref|] eqn:Href; cycle 1.
  { unfold reportValidity, refMap_get, throwIfNotFormAssociated, the_host, gets, bind.
    simpl. by rewrite Href. }
  destruct (dom w !! ref) as [h|] eqn:Hh; cycle 1.
  { unfold reportValidity, refMap_get, throwIfNotFormAssociated, the_host, gets, bind.
    simpl. rewrite Href. simpl. by rewrite Hh. }
  destruct (formAssociated h) eqn:Hfa; cycle 1.
  { unfold reportValidity.
    unfold bind at 1. unfold refMap_get, gets. rewrite Href.
    unfold bind at 1. by rewrite (gate_fail _ _ _ _ Hh Hfa). }
  unfold reportValidity.
  unfold bind at 1. unfold refMap_get, gets. rewrite Href.
  unfold bind at 1. rewrite (gate_pass _ _ _ _ Hh Hfa).
  unfold bind at 1.
  destruct (validityMap w !! this) as [v|] eqn:Hv; cycle 1.
  { unfold checkValidity. cbv zeta.
    unfold bind at 1. unfold refMap_get, gets. rewrite Href.
    unfold bind at 1. rewrite (gate_pass _ _ _ _ Hh Hfa).
    unfold bind at 1. unfold read_valid at 1. by rewrite Hv. }
  rewrite (checkValidity_run_any _ _ _ _ _ Href Hh Hfa Hv). cbv zeta.
  destruct (default false (v !! "valid"));
    unfold the_host, focus, emit, modify, ret, throw, bind; simpl; rewrite Hh; simpl;
    rewrite Hfa; simpl; rewrite andb_false_r; simpl; try done.
  repeat case_match; done.
Qed.

Lemma reportValidity_focuses_host_then_anchor_witness :
  reportValidity Demo.internals Demo.anchored =
    (Return false,
     set_trace
       (λ t, t ++ [DispatchEvent Demo.field invalid_event; Focus Demo.field; Focus Demo.div])
       Demo.anchored).
Proof.
  apply (reportValidity_focuses_host_then_anchor Demo.anchored Demo.internals Demo.field
           (mkHost "X-FIELD" true (<["aria-invalid" := "true"]> {["name" := "n"]})
              false None None [])
           (reconciled new_ValidityState {["valueMissing" := true]}) false);
    vm_refl.
Defined.

(** ** More on [setValidity] *)

(** Where a call that is not made on an attached, form-associated instance
    with a flags argument leaves the world: as it was, or with the anchor
    alone stored. *)
Lemma setValidity_world_cases w this changes msg anchor :
  (∃ ref h v c, changes = Some c ∧ refMap w !! this = Some ref ∧
     dom w !! ref = Some h ∧ formAssociated h = true ∧
     validityMap w !! this = Some v)
  ∨ (setValidity this changes msg anchor w).2 = w
  ∨ (setValidity this changes msg anchor w).2 =
      set_validationAnchorMap <[this := anchor]> w.
Proof.
  unfold setValidity, setAttribute, refMap_get, throwIfNotFormAssociated, the_host,
    modify, setValid, spread, reconcileValidty, gets, ret, throw, bind.
  destruct (refMap w !! this) as [ref|] eqn:Href; simpl; [|by right; left].
  destruct (dom w !! ref) as [h|] eqn:Hh; simpl; [|by right; left].
  destruct (formAssociated h) eqn:Hfa; [|by right; left].
  destruct changes as [c|]; [|by right; left].
  destruct (validityMap w !! this) as [v|] eqn:Hv.
  { left. by exists ref, h, v, c. }
  right. right.
  destruct (bool_decide (size c = 0)) eqn:Hsz; simpl; by rewrite ?Hv.
Qed.

(** X9: the anchor is stored before the message is looked at (line 179): on a
    form-associated host every call that passes a flags argument leaves its
    anchor argument on record, the rejected calls too; a call without an
    anchor erases the one on record. *)
Theorem setValidity_replaces_anchor w this ref h v changes msg anchor :
  refMap w !! this = Some ref → dom w !! ref = Some h →
  formAssociated h = true → validityMap w !! this = Some v →
  mjoin (validationAnchorMap (setValidity this (Some changes) msg anchor w).2 !! this)
    = anchor.
Proof.
  intros Href Hh Hfa Hv.
  rewrite (setValidity_run _ _ _ _ _ _ _ _ Href Hh Hfa Hv). cbv zeta.
  unfold reconciled_world.
  destruct (negb _ && negb _); simpl; by rewrite lookup_insert_eq.
Qed.

Lemma setValidity_replaces_anchor_witness :
  mjoin (validationAnchorMap
           (setValidity Demo.internals (Some {["customError" := true]}) None None
              Demo.anchored).2 !! Demo.internals) = None.
Proof.
  apply (setValidity_replaces_anchor Demo.anchored Demo.internals Demo.field
           (mkHost "X-FIELD" true (<["aria-invalid" := "true"]> {["name" := "n"]})
              false None None [])
           (reconciled new_ValidityState {["valueMissing" := true]}));
    vm_refl.
Defined.

(** X10: what [setValidity] never touches, whether it returns or throws, on any
    instance in any world: it dispatches nothing and moves no focus, it
    creates and removes no proxy input, it leaves the registrations, the
    stored form values and the shadow roots alone, and what the maps hold
    for every other instance is as before. *)
Theorem setValidity_frame w this changes msg anchor :
  let w' := (setValidity this changes msg anchor w).2 in
  trace w' = trace w ∧ hiddenInputMap w' = hiddenInputMap w
  ∧ refMap w' = refMap w ∧ internalsMap w' = internalsMap w
  ∧ refValueMap w' = refValueMap w ∧ shadowRootMap w' = shadowRootMap w
  ∧ ∀ other, other ≠ this → instance_state w' other = instance_state w other.
Proof.
  cbv zeta.
  destruct (setValidity_world_cases w this changes msg anchor)
    as [(ref & h & v & c & -> & Href & Hh & Hfa & Hv)|[-> | ->]].
  - rewrite (setValidity_run _ _ _ _ _ _ _ _ Href Hh Hfa Hv). cbv zeta.
    unfold reconciled_world, instance_state.
    destruct (negb _ && negb _); simpl; do 6 (split; [done|]);
      intros other Hother; destruct (bool_decide (size c = 0)); simpl;
      by rewrite !lookup_insert_ne.
  - done.
  - do 6 (split; [done|]). intros other Hother. unfold instance_state. simpl.
    by rewrite lookup_insert_ne.
Qed.

(** X11: the only thing [setValidity] changes in the document is the host's
    [aria-invalid] attribute: every element is still there with the same
    tag name, class and properties, and every other attribute reads as
    before. *)
Theorem setValidity_touches_only_aria_invalid w this changes msg anchor e name :
  name ≠ "aria-invalid" →
  let w' := (setValidity this changes msg anchor w).2 in
  attribute_of w' e name = attribute_of w e name
  ∧ tagName <$> (dom w' !! e) = tagName <$> (dom w !! e)
  ∧ formAssociated <$> (dom w' !! e) = formAssociated <$> (dom w !! e)
  ∧ disabled <$> (dom w' !! e) = disabled <$> (dom w !! e).
Proof.
  intros Hname. cbv zeta. unfold attribute_of.
  destruct (setValidity_world_cases w this changes msg anchor)
    as [(ref & h & v & c & -> & Href & Hh & Hfa & Hv)|[-> | ->]]; [|done|done].
  rewrite (setValidity_run _ _ _ _ _ _ _ _ Href Hh Hfa Hv). cbv zeta.
  destruct (negb _ && negb _); [done|]. simpl.
  destruct (decide (e = ref)) as [->|Hne].
  - rewrite lookup_alter_eq, Hh. simpl. by rewrite lookup_insert_ne.
  - by rewrite lookup_alter_ne.
Qed.

Lemma setValidity_touches_only_aria_invalid_witness :
  attribute_of Demo.required Demo.field "name" = Some "n".
Proof.
  destruct (setValidity_touches_only_aria_invalid Demo.attached Demo.internals
              (Some {["valueMissing" := true]}) (Some "Required") None Demo.field "name")
    as [Hattribute _]; [discriminate|].
  etransitivity; [exact Hattribute|]. vm_refl.
Defined.

(** X12: the flags argument is a sparse overlay: after a successful call with a
    non-empty argument, each named flag reads as the argument has it where
    the argument has it, and as it was stored otherwise; no flag is
    cleared for being left out. *)
Theorem setValidity_is_sparse_overlay w w' this changes msg anchor v :
  setValidity this (Some changes) msg anchor w = (Return tt, w') →
  changes ≠ ∅ → validityMap w !! this = Some v →
  ∃ v', validityMap w' !! this = Some v' ∧
        ∀ k, k ≠ "valid" → v' !! k = (changes ∪ v) !! k.
Proof.
  intros Hrun Hne Hv.
  destruct (setValidity_inv _ _ _ _ _ _ Hrun)
    as (ref & h & v0 & c & [= <-] & Href & Hh & Hfa & Hv0).
  simplify_eq.
  rewrite (setValidity_run _ _ _ _ _ _ _ _ Href Hh Hfa Hv) in Hrun. cbv zeta in Hrun.
  apply map_size_non_empty_iff in Hne.
  unfold reconciled_world in Hrun.
  rewrite (bool_decide_eq_false_2 _ Hne) in Hrun.
  destruct (negb _ && negb _); [done|]. injection Hrun as <-. simpl.
  rewrite lookup_insert_eq. eexists. split; [done|].
  intros k Hk. by rewrite reconciled_named, check_merged_named.
Qed.

Lemma setValidity_is_sparse_overlay_witness :
  ∃ v', validityMap
          (setValidity Demo.internals (Some {["customError" := true]}) (Some "Custom")
             None Demo.required).2 !! Demo.internals = Some v' ∧
        v' !! "valueMissing" = Some true ∧ v' !! "customError" = Some true.
Proof.
  destruct (setValidity_is_sparse_overlay Demo.required
              (setValidity Demo.internals (Some {["customError" := true]}) (Some "Custom")
                 None Demo.required).2
              Demo.internals {["customError" := true]} (Some "Custom") None
              (reconciled new_ValidityState {["valueMissing" := true]}))
    as (v' & Hstored & Hnamed).
  - vm_refl.
  - intros Hempty. apply (f_equal (λ m, m !! "customError")) in Hempty. discriminate.
  - vm_refl.
  - exists v'. split; [exact Hstored|].
    split; rewrite Hnamed by discriminate; vm_refl.
Defined.

Lemma new_ValidityState_named k :
  k ≠ "valid" → new_ValidityState !! k ≠ Some true.
Proof.
  intros Hk Htrue. unfold new_ValidityState in Htrue.
  rewrite lookup_insert_ne in Htrue by done.
  apply elem_of_list_to_map_2, list_elem_of_fmap in Htrue as (x & Heq & _).
  congruence.
Qed.

(** X13: clearing the last flag makes the field valid: when [k] is the only
    named flag that may be set, [setValidity({k: false})] succeeds with
    or without a message, and leaves [valid] true, the message empty and
    [aria-invalid] "false". *)
Theorem setValidity_clearing_last_flag w this ref h v k msg anchor :
  refMap w !! this = Some ref → dom w !! ref = Some h →
  formAssociated h = true → validityMap w !! this = Some v →
  k ≠ "valid" → (∀ k', k' ≠ "valid" → k' ≠ k → v !! k' ≠ Some true) →
  ∃ w' v',
    setValidity this (Some {[k := false]}) msg anchor w = (Return tt, w') ∧
    validityMap w' !! this = Some v' ∧ v' !! "valid" = Some true ∧
    v' !! k = Some false ∧
    validationMessageMap w' !! this = Some (Some "") ∧
    aria_invalid w' ref = Some "false".
Proof.
  intros Href Hh Hfa Hv Hk Honly.
  rewrite (setValidity_run _ _ _ _ _ _ _ _ Href Hh Hfa Hv). cbv zeta.
  unfold reconciled_world.
  rewrite (nonempty_of_lookup {[k := false]} k false) by apply lookup_singleton_eq.
  assert (isValid (delete "valid" ({[k := false]} ∪ v) ∪ v) = true) as Hvalid.
  { apply isValid_true. intros k' Hk'. rewrite check_merged_named by done.
    rewrite lookup_union. destruct (decide (k' = k)) as [->|Hne].
    - rewrite lookup_singleton_eq. by destruct (v !! k).
    - rewrite lookup_singleton_ne by done. rewrite (left_id None _).
      by apply Honly. }
  rewrite reconciled_valid, Hvalid.
  pose proof (reconciled_valid v (delete "valid" ({[k := false]} ∪ v))) as Hstored.
  pose proof (reconciled_named v (delete "valid" ({[k := false]} ∪ v)) k Hk) as Hflag.
  rewrite Hvalid in Hstored.
  rewrite check_merged_named, lookup_union, lookup_singleton_eq in Hflag by done.
  set (v' := reconciled v _) in *. simpl.
  eexists _, v'. split; [reflexivity|]. unfold aria_invalid. simpl.
  rewrite !lookup_insert_eq, lookup_alter_eq, Hh. simpl. rewrite lookup_insert_eq.
  split; [done|]. split; [done|]. split; [|done].
  rewrite Hflag. by destruct (v !! k).
Qed.

Lemma setValidity_clearing_last_flag_witness :
  ∃ w' v',
    setValidity Demo.internals (Some {["valueMissing" := false]}) None None Demo.required
      = (Return tt, w') ∧
    validityMap w' !! Demo.internals = Some v' ∧ v' !! "valid" = Some true.
Proof.
  destruct (setValidity_clearing_last_flag Demo.required Demo.internals Demo.field
              (mkHost "X-FIELD" true (<["aria-invalid" := "true"]> {["name" := "n"]})
                 false None None [])
              (reconciled new_ValidityState {["valueMissing" := true]})
              "valueMissing" None None)
    as (w' & v' & Hrun & Hstored & Hvalid & _).
  - vm_refl.
  - vm_refl.
  - reflexivity.
  - vm_refl.
  - discriminate.
  - intros k' Hvalid Hk'.
    rewrite reconciled_named, lookup_union, lookup_singleton_ne by done.
    rewrite (left_id None _). by apply new_ValidityState_named.
  - exists w', v'. split; [exact Hrun|]. split; [exact Hstored | exact Hvalid].
Defined.

Lemma isValid_ext (m1 m2 : ValidityState) :
  (∀ k, k ≠ "valid" → m1 !! k = m2 !! k) → isValid m1 = isValid m2.
Proof.
  intros Hnamed.
  destruct (isValid m1) eqn:H1, (isValid m2) eqn:H2; try done.
  - pose proof (proj1 (isValid_true m1) H1) as Hm1.
    apply not_true_iff_false in H2. destruct H2.
    apply isValid_true. intros k Hk. rewrite <- Hnamed by done. by apply Hm1.
  - pose proof (proj1 (isValid_true m2) H2) as Hm2.
    apply not_true_iff_false in H1. destruct H1.
    apply isValid_true. intros k Hk. rewrite Hnamed by done. by apply Hm2.
Qed.

Lemma reconciled_ext (a n b m : ValidityState) :
  (∀ k, k ≠ "valid" → (n ∪ a) !! k = (m ∪ b) !! k) → reconciled a n = reconciled b m.
Proof.
  intros Hnamed. apply map_eq. intros k. destruct (decide (k = "valid")) as [->|Hk].
  - rewrite !reconciled_valid. f_equal. by apply isValid_ext.
  - rewrite !reconciled_named by done. by apply Hnamed.
Qed.

(** Reconciling the reconciled object with the same argument changes
    nothing. *)
Lemma reconciled_again (v changes : ValidityState) :
  let v0 := if bool_decide (size changes = 0) then all_clear v else v in
  let v' := reconciled v0 (delete "valid" (changes ∪ v0)) in
  let v0' := if bool_decide (size changes = 0) then all_clear v' else v' in
  reconciled v0' (delete "valid" (changes ∪ v0')) = v'.
Proof.
  cbv zeta. apply reconciled_ext. intros k Hk.
  rewrite !check_merged_named by done.
  destruct (bool_decide (size changes = 0)) eqn:Hsz.
  - apply bool_decide_eq_true, map_size_empty_iff in Hsz. subst changes.
    rewrite !lookup_union, !lookup_empty, !(left_id None _).
    rewrite !all_clear_named, reconciled_named, check_merged_named by done.
    rewrite lookup_union, lookup_empty, (left_id None _), all_clear_named by done.
    by destruct (v !! k).
  - rewrite lookup_union, reconciled_named, check_merged_named by done.
    rewrite lookup_union. by destruct (changes !! k), (v !! k).
Qed.

Lemma world_eq w1 w2 :
  dom w1 = dom w2 → refMap w1 = refMap w2 → validityMap w1 = validityMap w2 →
  internalsMap w1 = internalsMap w2 →
  validationAnchorMap w1 = validationAnchorMap w2 →
  validationMessageMap w1 = validationMessageMap w2 →
  refValueMap w1 = refValueMap w2 → shadowRootMap w1 = shadowRootMap w2 →
  shadowHostsMap w1 = shadowHostsMap w2 → hiddenInputMap w1 = hiddenInputMap w2 →
  trace w1 = trace w2 → nextObject w1 = nextObject w2 → w1 = w2.
Proof. destruct w1, w2. simpl. by intros -> -> -> -> -> -> -> -> -> -> -> ->. Qed.

(** X14: a successful [setValidity] call can be repeated: the same call on the
    world it left succeeds again and leaves that world as it is. *)
Theorem setValidity_idempotent w w' this changes msg anchor :
  setValidity this (Some changes) msg anchor w = (Return tt, w') →
  setValidity this (Some changes) msg anchor w' = (Return tt, w').
Proof.
  intros Hrun.
  destruct (setValidity_inv _ _ _ _ _ _ Hrun)
    as (ref & h & v & c & [= <-] & Href & Hh & Hfa & Hv).
  rewrite (setValidity_run _ _ _ _ _ _ _ _ Href Hh Hfa Hv) in Hrun. cbv zeta in Hrun.
  pose proof (reconciled_again v changes) as Hagain. cbv zeta in Hagain.
  set (v0 := if bool_decide (size changes = 0) then all_clear v else v) in *.
  set (v' := reconciled v0 (delete "valid" (changes ∪ v0))) in *.
  destruct (negb (default false (v' !! "valid")) && negb (truthy msg)) eqn:Hcheck;
    [done|].
  injection Hrun as <-.
  set (aria := if negb (default false (v' !! "valid")) then "true" else "false") in *.
  set (stored := if default false (v' !! "valid") then Some "" else msg) in *.
  match goal with
  | |- setValidity _ _ _ _ ?w1 = _ =>
      rewrite (setValidity_run w1 this ref (with_attribute "aria-invalid" aria h) v')
  end.
  - cbv zeta. rewrite Hagain. fold aria stored. rewrite Hcheck.
    f_equal. unfold reconciled_world. rewrite Hagain. fold v0.
    apply world_eq; fields; try done.
    + apply map_eq. intros e. destruct (decide (e = ref)) as [->|Hne].
      * rewrite !lookup_alter_eq, Hh. cbn [fmap option_fmap option_map]. f_equal.
        unfold with_attribute. cbn [attributes tagName formAssociated disabled
          parentForm hostRoot cancelled_events].
        by rewrite insert_insert_eq.
      * by rewrite !lookup_alter_ne.
    + destruct (bool_decide (size changes = 0)); cbn [id];
        by rewrite !insert_insert_eq.
    + by rewrite insert_insert_eq.
    + by rewrite insert_insert_eq.
  - done.
  - unfold reconciled_world. fields. by rewrite lookup_alter_eq, Hh.
  - done.
  - unfold reconciled_world. fields. by rewrite lookup_insert_eq.
Qed.

Lemma setValidity_idempotent_witness :
  setValidity Demo.internals (Some {["valueMissing" := true]}) (Some "Required") None
    Demo.required = (Return tt, Demo.required).
Proof.
  apply (setValidity_idempotent Demo.attached). vm_refl.
Defined.

(** X15: with a non-empty message [setValidity] never fails on a
    form-associated host, whatever the flags and whatever was stored. *)
Theorem setValidity_with_message_succeeds w this ref h v changes msg anchor :
  refMap w !! this = Some ref → dom w !! ref = Some h →
  formAssociated h = true → validityMap w !! this = Some v →
  truthy msg = true →
  ∃ w', setValidity this (Some changes) msg anchor w = (Return tt, w').
Proof.
  intros Href Hh Hfa Hv Hmsg.
  rewrite (setValidity_run _ _ _ _ _ _ _ _ Href Hh Hfa Hv). cbv zeta.
  rewrite Hmsg, andb_false_r. by eexists.
Qed.

Lemma setValidity_with_message_succeeds_witness :
  ∃ w', setValidity Demo.internals (Some {["tooLong" := true; "valid" := true]})
          (Some "Too long") None Demo.required = (Return tt, w').
Proof.
  apply (setValidity_with_message_succeeds Demo.required Demo.internals Demo.field
           (mkHost "X-FIELD" true (<["aria-invalid" := "true"]> {["name" := "n"]})
              false None None [])
           (reconciled new_ValidityState {["valueMissing" := true]})); vm_refl.
Defined.

(** ** More on [setFormValue] *)

Lemma string_entry_world w ref h this l key s :
  dom w !! ref = Some h → hiddenInputMap w !! this = Some l →
  (let* hiddenInput := createHiddenInput (Some ref) this in
   set_input_name hiddenInput key ;; set_input_value hiddenInput s) w =
    (Return tt, set_hiddenInputMap <[this := l ++ [mkHiddenInput key s]]> w).
Proof.
  intros Hh Hl. unfold bind at 1. rewrite (createHiddenInput_run _ _ _ _ _ Hh Hl).
  unfold set_input_name, set_input_value, modify, bind. cbn [fst snd].
  f_equal. apply world_eq; fields; try done.
  by rewrite !alter_insert_eq, !alter_last.
Qed.

Lemma forEach_entry_world ref h this entries :
  ∀ w l,
    dom w !! ref = Some h → hiddenInputMap w !! this = Some l →
    forEach_entry (Some ref) this entries w =
      (Return tt,
       set_hiddenInputMap <[this := l ++ proxies_for h (VFormData entries)]> w).
Proof.
  induction entries as [|[key value] rest IH]; intros w l Hh Hl.
  - cbn [forEach_entry proxies_for omap list_omap]. unfold ret. f_equal.
    apply world_eq; fields; try done. by rewrite app_nil_r, insert_id.
  - destruct value as [s|file].
    + cbn [forEach_entry]. unfold bind at 1.
      rewrite (string_entry_world _ _ _ _ _ _ _ Hh Hl).
      rewrite (IH _ (l ++ [mkHiddenInput key s]));
        [|exact Hh|fields; apply lookup_insert_eq].
      f_equal. apply world_eq; fields; try done.
      rewrite insert_insert_eq. f_equal. simpl. by rewrite <- app_assoc.
    + cbn [forEach_entry]. unfold bind at 1. unfold ret at 1.
      by rewrite (IH _ _ Hh Hl).
Qed.

Lemma setFormValue_run w this ref h value :
  refMap w !! this = Some ref → dom w !! ref = Some h → formAssociated h = true →
  setFormValue this value w =
    (Return tt,
     set_refValueMap <[ref := value]>
       (set_hiddenInputMap <[this := proxies_for h value]> w)).
Proof.
  intros Href Hh Hfa. unfold setFormValue.
  unfold bind at 1. unfold refMap_get, gets. rewrite Href.
  unfold bind at 1. rewrite (gate_pass _ _ _ _ Hh Hfa).
  unfold bind at 1. unfold removeHiddenInputs, modify at 1.
  set (w0 := set_hiddenInputMap <[this := []]> w).
  assert (dom w0 !! ref = Some h) as Hh0 by done.
  assert (hiddenInputMap w0 !! this = Some []) as Hl0
    by (fields; apply lookup_insert_eq).
  destruct value as [|s|entries].
  - unfold ret, modify, bind. f_equal.
  - unfold bind at 1. unfold bind at 1.
    rewrite (getAttribute_run _ _ _ _ Hh0). unfold truthy.
    cbn [proxies_for].
    destruct (attributes h !! "name") as [n|] eqn:Hname.
    + destruct (bool_decide (n = "")) eqn:Hn; cbn [negb].
      * unfold ret, modify. f_equal.
      * unfold bind at 1. rewrite (createHiddenInput_run _ _ _ _ _ Hh0 Hl0).
        unfold set_input_value, modify. cbn [fst snd]. f_equal.
        subst w0. apply world_eq; fields; try done.
        rewrite alter_insert_eq, insert_insert_eq, Hname. done.
    + unfold ret, modify. f_equal.
  - unfold bind at 1. rewrite (forEach_entry_world _ _ _ _ _ _ Hh0 Hl0).
    unfold modify. f_equal. subst w0. apply world_eq; fields; try done.
    by rewrite insert_insert_eq.
Qed.

(** X16: on a form-associated host [setFormValue] always succeeds, and
    all it changes is the instance's list of proxy inputs and the value
    stored for the host, which is the argument as passed (file entries
    included, and also when no proxy was made).  Validity, message, anchor,
    attributes and the trace of effects are untouched. *)
Theorem setFormValue_changes_only_proxies_and_value w this ref h value :
  refMap w !! this = Some ref → dom w !! ref = Some h → formAssociated h = true →
  setFormValue this value w =
    (Return tt,
     set_refValueMap <[ref := value]>
       (set_hiddenInputMap <[this := proxies_for h value]> w)).
Proof. apply setFormValue_run. Qed.

Lemma setFormValue_changes_only_proxies_and_value_witness :
  setFormValue Demo.internals (VFormData [("f", EntryFile 1)]) Demo.required =
    (Return tt,
     set_refValueMap <[Demo.field := VFormData [("f", EntryFile 1)]]>
       (set_hiddenInputMap <[Demo.internals := []]> Demo.required)).
Proof.
  apply (setFormValue_changes_only_proxies_and_value Demo.required Demo.internals
           Demo.field
           (mkHost "X-FIELD" true (<["aria-invalid" := "true"]> {["name" := "n"]})
              false None None [])); vm_refl.
Defined.

(** X17: the last form value wins: two [setFormValue] calls in a row leave
    exactly the world the second call alone would have left. *)
Theorem setFormValue_last_call_wins w this ref h first second :
  refMap w !! this = Some ref → dom w !! ref = Some h → formAssociated h = true →
  setFormValue this second (setFormValue this first w).2 = setFormValue this second w.
Proof.
  intros Href Hh Hfa.
  rewrite (setFormValue_run _ _ _ _ first Href Hh Hfa).
  cbn [snd].
  rewrite (setFormValue_run _ _ ref h second);
    [|done|done|done].
  rewrite (setFormValue_run _ _ _ _ second Href Hh Hfa).
  f_equal. apply world_eq; fields; try done; by rewrite insert_insert_eq.
Qed.

Lemma setFormValue_last_call_wins_witness :
  setFormValue Demo.internals VNull
    (setFormValue Demo.internals (VString "x") Demo.attached).2 =
  setFormValue Demo.internals VNull Demo.attached.
Proof.
  apply (setFormValue_last_call_wins Demo.attached Demo.internals Demo.field
           (mkHost "X-FIELD" true {["name" := "n"]} false None None [])); vm_refl.
Defined.

(** X18: [setFormValue] and [setValidity] do not interfere: on a
    form-associated host, a form value set before or after a successful
    [setValidity] call gives the same world. *)
Theorem setFormValue_setValidity_commute w w' this value changes msg anchor :
  setValidity this (Some changes) msg anchor w = (Return tt, w') →
  setValidity this (Some changes) msg anchor (setFormValue this value w).2 =
    (Return tt, (setFormValue this value w').2).
Proof.
  intros Hrun.
  destruct (setValidity_inv _ _ _ _ _ _ Hrun)
    as (ref & h & v & c & [= <-] & Href & Hh & Hfa & Hv).
  rewrite (setValidity_run _ _ _ _ _ _ _ _ Href Hh Hfa Hv) in Hrun. cbv zeta in Hrun.
  rewrite (setFormValue_run _ _ _ _ value Href Hh Hfa).
  cbn [snd].
  rewrite (setValidity_run _ this ref h v); [|done|done|done|done]. cbv zeta.
  destruct (negb _ && negb _); [done|]. injection Hrun as <-.
  set (aria := if negb _ then "true" else "false").
  rewrite (setFormValue_run _ this ref
             (with_attribute "aria-invalid" aria h) value);
    [|done|unfold reconciled_world; fields; by rewrite lookup_alter_eq, Hh|done].
  cbn [snd]. f_equal. unfold reconciled_world.
  apply world_eq; fields; try done.
  assert (proxies_for (with_attribute "aria-invalid" aria h) value = proxies_for h value)
    as ->; [|done].
  destruct value as [|s|entries]; try done.
  cbn [proxies_for with_attribute attributes]. by rewrite lookup_insert_ne.
Qed.

Lemma setFormValue_setValidity_commute_witness :
  setValidity Demo.internals (Some {["valueMissing" := true]}) (Some "Required") None
    (setFormValue Demo.internals (VString "x") Demo.attached).2 =
  (Return tt, (setFormValue Demo.internals (VString "x") Demo.required).2).
Proof.
  apply (setFormValue_setValidity_commute Demo.attached). vm_refl.
Defined.

(** ** The module body *)

(** X19: running the module body again patches nothing twice: once a class is
    registered on [window], whether the platform's or this one, the body
    leaves the globals as they are; so [attachShadow] is wrapped at most
    once and the document gets at most one observer, and a platform that
    has [ElementInternals] is not patched at all. *)
Theorem install_once g :
  install (install g) = install g
  ∧ (window_ElementInternals g = Some Native → install g = g)
  ∧ (attachShadow_wrappers (install (install g)) ≤ S (attachShadow_wrappers g))%nat
  ∧ is_Some (window_ElementInternals (install g)).
Proof.
  unfold install. destruct (window_ElementInternals g) as [impl|] eqn:Himpl; simpl.
  - rewrite Himpl. repeat split; eauto with lia.
  - repeat split; eauto with lia. done.
Qed.

(** ** [willValidate] *)

(** X20: [willValidate] on a form-associated host is false exactly when
    the element's [disabled] property is set or it carries a [disabled]
    attribute, whatever the attribute's value (the empty string too); the
    validity state plays no part. *)
Theorem willValidate_is_not_disabled w this ref h :
  refMap w !! this = Some ref → dom w !! ref = Some h → formAssociated h = true →
  ∃ answer,
    willValidate this w = (Return answer, w) ∧
    (answer = false ↔ disabled h = true ∨ is_Some (attributes h !! "disabled")).
Proof.
  intros Href Hh Hfa. unfold willValidate.
  unfold bind at 1. unfold refMap_get, gets. rewrite Href.
  unfold bind at 1. rewrite (gate_pass _ _ _ _ Hh Hfa).
  unfold hasAttribute, the_host, ret, bind. cbn [mbind option_bind].
  rewrite !Hh. cbn beta iota. rewrite ?Hh. cbn beta iota.
  destruct (disabled h); cbn [orb].
  - eexists. split; [done|]. split; [by left|done].
  - destruct (attributes h !! "disabled") as [value|] eqn:Hattr.
    + rewrite bool_decide_eq_true_2 by eauto. eexists. split; [done|].
      split; [by right|done].
    + rewrite bool_decide_eq_false_2 by (by intros [? ?]). eexists. split; [done|].
      split; [done|]. by intros [?|[? ?]].
Qed.

Lemma willValidate_is_not_disabled_witness :
  willValidate Demo.internals Demo.required = (Return true, Demo.required).
Proof.
  destruct (willValidate_is_not_disabled Demo.required Demo.internals Demo.field
              (mkHost "X-FIELD" true (<["aria-invalid" := "true"]> {["name" := "n"]})
                 false None None []))
    as (answer & Hrun & Hiff); [vm_refl | vm_refl | vm_refl |].
  rewrite Hrun. destruct answer; [reflexivity|].
  destruct (proj1 Hiff eq_refl) as [Hdisabled | [value Hattribute]];
    [discriminate Hdisabled | vm_compute in Hattribute; discriminate Hattribute].
Defined.
